(** * The dataset analyzer of the data-analysis dashboard

    A shallow embedding of [round] and [analyze] (the DataAnalyzer
    component) and the properties its specification states about them.

    Numbers.  A JavaScript number is modelled as a real number or one of
    the three special values NaN, +Infinity and -Infinity.  Arithmetic
    on finite values is the exact arithmetic of the reals: the rounding
    of binary64, overflow to an infinity and the sign of zero are not
    modelled.  The special values follow IEEE 754 as JavaScript does. *)

From Stdlib Require Import Reals Lra Lia ZArith List Bool Ascii String.
From Stdlib Require Import Permutation Sorted.
Import ListNotations.

Local Open Scope R_scope.

(** ** Numbers *)

Module Number.

Inductive number : Type :=
| NaN
| PInf
| NInf
| Fin (r : R).

Definition Rltb (a b : R) : bool := if Rlt_dec a b then true else false.
Definition Reqb (a b : R) : bool := if Req_dec_T a b then true else false.

Arguments Rltb : simpl never.
Arguments Reqb : simpl never.

Definition of_nat (n : nat) : number := Fin (INR n).

(** The global [isNaN] and [isFinite], on a number. *)
Definition isNaN (x : number) : bool :=
  match x with NaN => true | _ => false end.

Definition isFinite (x : number) : bool :=
  match x with Fin _ => true | _ => false end.

Definition neg (x : number) : number :=
  match x with
  | NaN => NaN
  | PInf => NInf
  | NInf => PInf
  | Fin r => Fin (- r)
  end.

(** [x + y] *)
Definition add (x y : number) : number :=
  match x, y with
  | NaN, _ | _, NaN => NaN
  | PInf, NInf | NInf, PInf => NaN
  | PInf, _ | _, PInf => PInf
  | NInf, _ | _, NInf => NInf
  | Fin a, Fin b => Fin (a + b)
  end.

(** [x - y] *)
Definition sub (x y : number) : number := add x (neg y).

(** The infinity with the sign of [r]; zero counts as positive. *)
Definition signed_inf (positive : bool) (r : R) : number :=
  if Rltb r 0 then (if positive then NInf else PInf)
  else (if positive then PInf else NInf).

(** [x * y] *)
Definition mul (x y : number) : number :=
  match x, y with
  | NaN, _ | _, NaN => NaN
  | Fin a, Fin b => Fin (a * b)
  | PInf, PInf | NInf, NInf => PInf
  | PInf, NInf | NInf, PInf => NInf
  | PInf, Fin r | Fin r, PInf => if Reqb r 0 then NaN else signed_inf true r
  | NInf, Fin r | Fin r, NInf => if Reqb r 0 then NaN else signed_inf false r
  end.

(** [x / y] *)
Definition div (x y : number) : number :=
  match x, y with
  | NaN, _ | _, NaN => NaN
  | Fin a, Fin b =>
      if Reqb b 0 then (if Reqb a 0 then NaN else signed_inf true a)
      else Fin (a / b)
  | Fin _, _ => Fin 0
  | PInf, Fin r => signed_inf true r
  | NInf, Fin r => signed_inf false r
  | _, _ => NaN
  end.

(** [x < y], [x > y], [x <= y] and [x === y]: false when either side is NaN. *)
Definition lt (x y : number) : bool :=
  match x, y with
  | NaN, _ | _, NaN => false
  | _, NInf => false
  | NInf, _ => true
  | PInf, _ => false
  | _, PInf => true
  | Fin a, Fin b => Rltb a b
  end.

Definition gt (x y : number) : bool := lt y x.

Definition strict_eq (x y : number) : bool :=
  match x, y with
  | PInf, PInf | NInf, NInf => true
  | Fin a, Fin b => Reqb a b
  | _, _ => false
  end.

Definition le (x y : number) : bool := lt x y || strict_eq x y.

End Number.
Export Number.

Declare Scope number_scope.
Delimit Scope number_scope with num.
Bind Scope number_scope with number.
Infix "+" := add : number_scope.
Infix "-" := sub : number_scope.
Infix "*" := mul : number_scope.
Infix "/" := div : number_scope.
Infix "<?" := lt : number_scope.
Infix ">?" := gt : number_scope.
Infix "<=?" := le : number_scope.
Infix "===" := strict_eq (at level 70) : number_scope.

(** ** The Math object *)

Module Math.

(** [Math.floor] and [Math.ceil] *)
Definition floor (x : number) : number :=
  match x with Fin r => Fin (IZR (Zfloor r)) | _ => x end.

Definition ceil (x : number) : number :=
  match x with Fin r => Fin (IZR (Zceil r)) | _ => x end.

(** [Math.round]: the nearest integer, a tie going to the one closer to
    +Infinity, which is [floor (x + 1/2)]. *)
Definition round (x : number) : number :=
  match x with Fin r => Fin (IZR (Zfloor (r + / 2))) | _ => x end.

(** [Math.sqrt]: NaN below zero. *)
Definition sqrt (x : number) : number :=
  match x with
  | NaN | NInf => NaN
  | PInf => PInf
  | Fin r => if Rltb r 0 then NaN else Fin (R_sqrt.sqrt r)
  end.

(** [Math.pow], for an exponent that is a natural number: the two calls
    of the source pass the exponent 2 ([digits] is 2 at every call of
    [round]). *)
Definition pow (x : number) (e : nat) : number :=
  match e with
  | O => Fin 1
  | S _ =>
      match x with
      | NaN => NaN
      | PInf => PInf
      | NInf => if Nat.odd e then NInf else PInf
      | Fin r => Fin (r ^ e)
      end
  end.

End Math.

(** ** Values and the conversion of text to a number *)

(** The elements of the [any[]] that [analyze] receives, by [typeof]. *)
Inductive value : Type :=
| VNumber (n : number)
| VString (s : string)
| VBoolean (b : bool)
| VNull
| VUndefined
| VObject.

Module Text.

Local Open Scope Z_scope.

(** White space and line terminators among the code units below 256. *)
Definition is_white_space (c : ascii) : bool :=
  let n := nat_of_ascii c in
  ((9 <=? n) && (n <=? 13) || (n =? 32) || (n =? 160))%nat.

Fixpoint trim_start (l : list ascii) : list ascii :=
  match l with
  | c :: l' => if is_white_space c then trim_start l' else l
  | [] => []
  end.

(** [String.prototype.trim] *)
Definition trim (l : list ascii) : list ascii :=
  rev (trim_start (rev (trim_start l))).

(** The value of a digit in a base up to 16, letters in either case. *)
Definition digit_value (base : Z) (c : ascii) : option Z :=
  let n := Z.of_nat (nat_of_ascii c) in
  let v := if (48 <=? n) && (n <=? 57) then n - 48
           else if (97 <=? n) && (n <=? 102) then n - 87
           else if (65 <=? n) && (n <=? 70) then n - 55
           else base in
  if v <? base then Some v else None.

(** The longest run of digits at the head of [l]: its value continuing
    from [acc], how many digits it has, and what follows it. *)
Fixpoint digits (base : Z) (acc : Z) (n : Z) (l : list ascii)
  : Z * Z * list ascii :=
  match l with
  | c :: l' =>
      match digit_value base c with
      | Some v => digits base (acc * base + v) (n + 1) l'
      | None => (acc, n, l)
      end
  | [] => (acc, n, [])
  end.

(** What a StringNumericLiteral denotes: not a number, an infinity, or
    the decimal [mantissa * 10 ^ exponent]. *)
Inductive literal : Type :=
| NotANumber
| Infinite (negative : bool)
| Decimal (mantissa : Z) (exponent : Z).

Definition sign_of (l : list ascii) : bool * list ascii :=
  match l with
  | "+"%char :: l' => (false, l')
  | "-"%char :: l' => (true, l')
  | _ => (false, l)
  end.

(** ExponentPart, optional: [e] or [E], a sign, at least one digit; then
    the end of the text. *)
Definition exponent_part (l : list ascii) : option Z :=
  match l with
  | [] => Some 0
  | c :: l' =>
      if (Ascii.eqb c "e" || Ascii.eqb c "E")%char then
        let '(negative, l'') := sign_of l' in
        match digits 10 0 0 l'' with
        | (e, n, []) =>
            if 0 <? n then Some (if negative then - e else e) else None
        | _ => None
        end
      else None
  end.

(** StrUnsignedDecimalLiteral other than [Infinity]. *)
Definition unsigned_decimal (l : list ascii) : option (Z * Z) :=
  let '(int, n_int, rest) := digits 10 0 0 l in
  let '(mant, n_frac, rest') :=
    match rest with
    | "."%char :: r => digits 10 int 0 r
    | _ => (int, 0, rest)
    end in
  if 0 <? n_int + n_frac then
    match exponent_part rest' with
    | Some e => Some (mant, e - n_frac)
    | None => None
    end
  else None.

(** NonDecimalIntegerLiteral: [0x], [0o] or [0b] and at least one digit. *)
Definition non_decimal (l : list ascii) : option Z :=
  match l with
  | "0"%char :: p :: l' =>
      let base :=
        if (Ascii.eqb p "x" || Ascii.eqb p "X")%char then 16
        else if (Ascii.eqb p "o" || Ascii.eqb p "O")%char then 8
        else if (Ascii.eqb p "b" || Ascii.eqb p "B")%char then 2
        else 0 in
      match digits base 0 0 l' with
      | (v, n, []) => if (0 <? base) && (0 <? n) then Some v else None
      | _ => None
      end
  | _ => None
  end.

(** StringToNumber, before the literal is turned into a number. *)
Definition string_numeric_literal (s : string) : literal :=
  match trim (list_ascii_of_string s) with
  | [] => Decimal 0 0
  | l =>
      match non_decimal l with
      | Some v => Decimal v 0
      | None =>
          let '(negative, l') := sign_of l in
          if list_eq_dec ascii_dec l' (list_ascii_of_string "Infinity")
          then Infinite negative
          else
            match unsigned_decimal l' with
            | Some (m, e) => Decimal (if negative then - m else m) e
            | None => NotANumber
            end
      end
  end.

End Text.

(** [Number(s)] for a string [s]. *)
Definition Number (s : string) : number :=
  match Text.string_numeric_literal s with
  | Text.NotANumber => NaN
  | Text.Infinite negative => if negative then NInf else PInf
  | Text.Decimal m e => Fin (IZR m * powerRZ 10 e)
  end.

(** [s.trim() !== ''] *)
Definition trim_nonempty (s : string) : bool :=
  match Text.trim (list_ascii_of_string s) with
  | [] => false
  | _ => true
  end.

(** ** Arrays of numbers *)

Module Array.

Local Open Scope number_scope.

(** [nums[i]] for an index held in a [nat].  Reading outside the array
    gives [undefined] in the source; it is NaN here, which is what
    [undefined] becomes in arithmetic. *)
Definition item (nums : list number) (i : nat) : number := nth i nums NaN.

(** The array index a number denotes, if it denotes one. *)
Definition to_index (i : number) : option nat :=
  match i with
  | Fin r =>
      if Reqb (IZR (Zfloor r)) r && negb (Rltb r 0)
      then Some (Z.to_nat (Zfloor r)) else None
  | _ => None
  end.

(** [nums[i]] for an index that is a number. *)
Definition get (nums : list number) (i : number) : number :=
  match to_index i with
  | Some k => item nums k
  | None => NaN
  end.

(** [Array.prototype.sort] with a comparator: a stable sort that puts
    [b] before [a] when [compareFn a b > 0]; a comparator result of 0 or
    NaN leaves the two in their order. *)
Section Sort.
Variable compareFn : number -> number -> number.

Fixpoint insert (x : number) (l : list number) : list number :=
  match l with
  | [] => [x]
  | y :: l' =>
      if compareFn x y >? Fin 0 then y :: insert x l' else x :: l
  end.

Definition sort (l : list number) : list number := fold_right insert [] l.
End Sort.

(** [reduce] with an initial value. *)
Definition reduce {A : Type} (f : A -> number -> A) (init : A)
    (l : list number) : A :=
  fold_left f l init.

End Array.

(** ** The analyzer *)

Module DataAnalyzer.

Import Array.
Local Open Scope number_scope.

(** [round = (n, digits = 2) => Math.round(n * Math.pow(10, digits)) /
    Math.pow(10, digits)] *)
Definition round (n : number) (digits : nat) : number :=
  Math.round (n * Math.pow (Fin 10) digits) / Math.pow (Fin 10) digits.

(** The function given to [map]: a number that is not NaN stays, text
    that is not blank and whose [Number] is not NaN becomes that number,
    anything else becomes [null]. *)
Definition coerce_element (x : value) : option number :=
  match x with
  | VNumber n => if negb (isNaN n) then Some n else None
  | VString s =>
      if trim_nonempty s && negb (isNaN (Number s)) then Some (Number s)
      else None
  | _ => None
  end.

(** The [filter] that follows: what is not [null] and is a number. *)
Fixpoint filter_numbers (l : list (option number)) : list number :=
  match l with
  | [] => []
  | Some n :: l' => n :: filter_numbers l'
  | None :: l' => filter_numbers l'
  end.

(** [nums] before it is sorted: the coerced numeric sequence. *)
Definition coerce (arr : list value) : list number :=
  filter_numbers (map coerce_element arr).

(** The comparator [(a, b) => a - b]. *)
Definition compareFn (a b : number) : number := a - b.

(** The local constants of [analyze], as functions of the sorted [nums]. *)
Section Locals.
Variable nums : list number.

Definition count_of : nat := List.length nums.
Definition sum_of : number := reduce (fun s v => s + v) (Fin 0) nums.
Definition avg_of : number := sum_of / of_nat count_of.
Definition min_of : number := item nums 0.
Definition max_of : number := item nums (List.length nums - 1).
Definition range_of : number := max_of - min_of.

Definition median_of : number :=
  if (count_of mod 2 =? 1)%nat then item nums ((count_of - 1) / 2)
  else (item nums (count_of / 2 - 1) + item nums (count_of / 2)) / Fin 2.

Definition variance_of : number :=
  reduce (fun acc v => acc + Math.pow (v - avg_of) 2) (Fin 0) nums
  / of_nat count_of.
Definition stddev_of : number := Math.sqrt variance_of.

Definition percentile_of (p : number) : number :=
  if (p <? Fin 0) || (p >? Fin 100) then NaN
  else
    let idx := (p / Fin 100) * (of_nat count_of - Fin 1) in
    let lower := Math.floor idx in
    let upper := Math.ceil idx in
    if lower === upper then get nums lower
    else
      let weight := idx - lower in
      get nums lower * (Fin 1 - weight) + get nums upper * weight.

Definition aboveAvg_of : list number := filter (fun n => n >? avg_of) nums.
Definition belowAvg_of : list number := filter (fun n => n <? avg_of) nums.
End Locals.

(** The record [analyze] returns when it has numbers. *)
Record analysis : Type := {
  nums : list number;
  count : nat;
  sum : number;
  avg : number;
  min : number;
  max : number;
  range : number;
  median : number;
  stddev : number;
  percentile : number -> number;
  aboveAvg : list number;
  belowAvg : list number
}.

(** What [analyze] returns: the object with the [error] field, or the
    record of statistics. *)
Inductive outcome : Type :=
| Failure (error : string)
| Stats (a : analysis).

(** The message of the only error. *)
Definition error_message : string := "No valid numeric values found.".

(** The object literal that [analyze] returns at its end, from the
    sorted [nums]. *)
Definition stats_of (nums : list number) : analysis :=
  {| nums := nums;
     count := count_of nums;
     sum := round (sum_of nums) 2;
     avg := round (avg_of nums) 2;
     min := min_of nums;
     max := max_of nums;
     range := round (range_of nums) 2;
     median := round (median_of nums) 2;
     stddev := round (stddev_of nums) 2;
     percentile := percentile_of nums;
     aboveAvg := aboveAvg_of nums;
     belowAvg := belowAvg_of nums |}.

Definition analyze (arr : list value) : outcome :=
  let nums := coerce arr in
  if (List.length nums =? 0)%nat then Failure error_message
  else
    let nums := sort compareFn nums in
    Stats (stats_of nums).

End DataAnalyzer.

(** ** The DataAnalyzer component around [analyze] *)

Module Component.

Import DataAnalyzer.

(** [String.prototype.split] with a separator of one character: the
    pieces between the separators, one piece for the empty text. *)
Fixpoint split_on (sep : ascii) (l : list ascii) : list (list ascii) :=
  match l with
  | [] => [[]]
  | c :: l' =>
      if Ascii.eqb c sep then [] :: split_on sep l'
      else
        match split_on sep l' with
        | piece :: rest => (c :: piece) :: rest
        | [] => [[c]]
        end
  end.

Definition split (sep : ascii) (s : string) : list string :=
  map string_of_list_ascii (split_on sep (list_ascii_of_string s)).

(** [String.prototype.trim], on strings. *)
Definition trim (s : string) : string :=
  string_of_list_ascii (Text.trim (list_ascii_of_string s)).

(** A string in a condition: true unless it is empty. *)
Definition truthy (s : string) : bool := negb (String.eqb s "").

(** [exampleDatasets], a table from names to datasets. *)
Definition temperatures : list value :=
  [VNumber (Fin 72); VNumber (Fin 75); VNumber (Fin 68); VNumber (Fin 80);
   VNumber (Fin 77); VNumber (Fin 74); VNumber (Fin 69); VNumber (Fin 78);
   VNumber (Fin 76); VNumber (Fin 73)].

Definition testScores : list value :=
  [VNumber (Fin 88); VNumber (Fin 92); VNumber (Fin 79); VNumber (Fin 95);
   VNumber (Fin 87); VNumber (Fin 90); VNumber (Fin 84); VNumber (Fin 89);
   VNumber (Fin 93); VNumber (Fin 86)].

Definition salesFigures : list value :=
  [VNumber (Fin 1200); VNumber (Fin 1450); VNumber (Fin 980);
   VNumber (Fin 1680); VNumber (Fin 1250); VNumber (Fin 1520);
   VNumber (Fin 1100); VNumber (Fin 1400)].

Definition mixed : list value :=
  [VString "100"; VNumber (Fin 50); VNull; VString "abc"; VNumber (Fin 75);
   VString "85.5"].

Definition exampleDatasets : list (string * list value) :=
  [("temperatures", temperatures); ("testScores", testScores);
   ("salesFigures", salesFigures); ("mixed", mixed)]%string.

(** [exampleDatasets[name]] for a name among the keys, which are the
    options of the [select]. *)
Fixpoint lookup (name : string) (table : list (string * list value))
  : option (list value) :=
  match table with
  | [] => None
  | (k, d) :: table' => if String.eqb k name then Some d else lookup name table'
  end.

(** The state of the component: the four [useState] cells.  [result]
    holds what [analyze] returned, or [null]. *)
Record state : Type := {
  selected : string;
  data : list value;
  result : option outcome;
  error : option string
}.

Definition initial : state :=
  {| selected := "temperatures"; data := temperatures;
     result := None; error := None |}.

(** [res.error]: the message of the error object, [undefined] on the
    record of statistics. *)
Definition error_of (res : outcome) : option string :=
  match res with Failure e => Some e | Stats _ => None end.

(** [runAnalysis]: the error is cleared, then either the result is
    cleared and the error set, or the result is set. *)
Definition runAnalysis (s : state) : state :=
  let res := analyze (data s) in
  match error_of res with
  | Some e =>
      if truthy e
      then {| selected := selected s; data := data s;
              result := None; error := Some e |}
      else {| selected := selected s; data := data s;
              result := Some res; error := None |}
  | None => {| selected := selected s; data := data s;
               result := Some res; error := None |}
  end.

(** [handleDatasetChange], for a name the [select] offers; there is no
    event for another name. *)
Definition handleDatasetChange (name : string) (s : state) : option state :=
  match lookup name exampleDatasets with
  | Some d => Some {| selected := name; data := d;
                      result := None; error := None |}
  | None => None
  end.

(** The pieces of the custom text:
    [val.split(',').map(s => s.trim()).filter(s => s !== '')]. *)
Definition pieces (val : string) : list string :=
  filter (fun s => negb (String.eqb s "")) (map trim (split "," val)).

(** [handleCustomInput]: the pieces become the data, as text. *)
Definition handleCustomInput (val : string) (s : state) : state :=
  {| selected := selected s; data := map VString (pieces val);
     result := result s; error := error s |}.

(** What the user can do, and the state after it. *)
Inductive event : Type :=
| Analyze
| SelectDataset (name : string)
| CustomInput (val : string).

Definition step (s : state) (e : event) : option state :=
  match e with
  | Analyze => Some (runAnalysis s)
  | SelectDataset name => handleDatasetChange name s
  | CustomInput val => Some (handleCustomInput val s)
  end.

Fixpoint run (s : state) (events : list event) : option state :=
  match events with
  | [] => Some s
  | e :: events' =>
      match step s e with
      | Some s' => run s' events'
      | None => None
      end
  end.


End Component.

(** ** The table that the arrow keys navigate *)

Module KeyboardNavigation.

Local Open Scope Z_scope.

Record DataRow : Type := {
  id : Z;
  name : string;
  value : Z;
  category : string
}.

Definition data : list DataRow :=
  [ {| id := 1; name := "Sales Report"; value := 45000; category := "Finance" |};
    {| id := 2; name := "Customer Data"; value := 23500; category := "Analytics" |};
    {| id := 3; name := "Performance"; value := 78900; category := "Metrics" |};
    {| id := 4; name := "Forecast"; value := 61200; category := "Planning" |} ].

(** [data[i]] for an integer [i]: [undefined] outside the array. *)
Definition row_at (i : Z) : option DataRow :=
  if i <? 0 then None else nth_error data (Z.to_nat i).

(** What a key press does besides setting the row: nothing, an alert, or
    the TypeError of reading [name] from [undefined]. *)
Inductive effect : Type :=
| Nothing
| Alert (message : string)
| TypeError.

Record handled : Type := {
  row : Z;
  defaultPrevented : bool;
  effect_of : effect
}.

(** [handleKeyDown], on the key and the selected row, an integer that
    starts at 0. *)
Definition handleKeyDown (key : string) (selectedRow : Z) : handled :=
  if String.eqb key "ArrowDown" then
    {| row := Z.min (selectedRow + 1) (Z.of_nat (List.length data) - 1);
       defaultPrevented := true; effect_of := Nothing |}
  else if String.eqb key "ArrowUp" then
    {| row := Z.max (selectedRow - 1) 0;
       defaultPrevented := true; effect_of := Nothing |}
  else if String.eqb key "Enter" || String.eqb key " " then
    {| row := selectedRow; defaultPrevented := true;
       effect_of :=
         match row_at selectedRow with
         | Some r => Alert ("Selected: " ++ name r)
         | None => TypeError
         end |}
  else
    {| row := selectedRow; defaultPrevented := false; effect_of := Nothing |}.

(** The selected row after a sequence of keys. *)
Definition press (selectedRow : Z) (keys : list string) : Z :=
  fold_left (fun r key => row (handleKeyDown key r)) keys selectedRow.

End KeyboardNavigation.

(** ** The window of the virtual scroll *)

Module VirtualScroll.

Local Open Scope Z_scope.

Definition itemHeight : R := 50.
Definition containerHeight : R := 400.

(** The state [visibleRange]; its fields are [start] and [end]. *)
Record visibleRange : Type := {
  start : Z;
  end_ : Z
}.

Definition initialRange : visibleRange := {| start := 0; end_ := 10 |}.

(** [handleScroll], on the [scrollTop] of the container. *)
Definition handleScroll (scrollTop : R) : visibleRange :=
  let start := Zfloor (scrollTop / itemHeight) in
  let end_ := start + Zceil (containerHeight / itemHeight) + 1 in
  {| start := start; end_ := end_ |}.

(** [Array.prototype.slice] on integer bounds: a negative bound counts
    from the end, and both are clamped to the array. *)
Definition slice {A : Type} (s e : Z) (l : list A) : list A :=
  let len := Z.of_nat (List.length l) in
  let k := if s <? 0 then Z.max (len + s) 0 else Z.min s len in
  let final := if e <? 0 then Z.max (len + e) 0 else Z.min e len in
  firstn (Z.to_nat (final - k)) (skipn (Z.to_nat k) l).

(** [visibleItems = data.slice(visibleRange.start, visibleRange.end)] *)
Definition visibleItems {A : Type} (data : list A) (r : visibleRange)
  : list A :=
  slice (start r) (end_ r) data.

(** The height of the spacer above the visible items. *)
Definition spacerAbove (r : visibleRange) : R :=
  (IZR (start r) * itemHeight)%R.

End VirtualScroll.

(** ** The simple name form *)

Module SimpleNameInput.

Record state : Type := {
  name : string;
  error : string;
  greeting : string
}.

Definition initial : state := {| name := ""; error := ""; greeting := "" |}.

(** The [onChange] of the input. *)
Definition setName (value : string) (s : state) : state :=
  {| name := value; error := error s; greeting := greeting s |}.

Definition handleSubmit (s : state) : state :=
  if (String.length (Component.trim (name s)) <? 2)%nat then
    {| name := name s; error := "Name must be at least 2 characters";
       greeting := "" |}
  else
    {| name := name s; error := "";
       greeting := "Hello, " ++ Component.trim (name s) ++ "!" |}.

Definition handleClear (s : state) : state :=
  {| name := ""; error := ""; greeting := "" |}.

Inductive event : Type :=
| Change (value : string)
| Submit
| Clear.

Definition step (s : state) (e : event) : state :=
  match e with
  | Change value => setName value s
  | Submit => handleSubmit s
  | Clear => handleClear s
  end.

End SimpleNameInput.

(** ** The upload progress simulator *)

Module UploadProgressSimulator.

Local Open Scope R_scope.

(** The state: [progress], a finite number held as a real,
    [isUploading], and whether the interval of [startUpload] is
    running. *)
Record state : Type := {
  progress : R;
  isUploading : bool;
  ticking : bool
}.

Definition initial : state :=
  {| progress := 0; isUploading := false; ticking := false |}.

Definition startUpload (s : state) : state :=
  {| progress := 0; isUploading := true; ticking := true |}.

(** One run of the interval callback; [random] is what [Math.random()]
    returns. *)
Definition tick (random : R) (s : state) : state :=
  let newProgress := progress s + random * 15 + 5 in
  if negb (Rltb newProgress 100) then
    {| progress := 100; isUploading := false; ticking := false |}
  else
    {| progress := newProgress; isUploading := isUploading s;
       ticking := ticking s |}.

Definition resetProgress (s : state) : state :=
  {| progress := 0; isUploading := false; ticking := false |}.

Definition addProgress (s : state) : state :=
  {| progress := Rmin (progress s + 25) 100;
     isUploading :=
       if negb (Rltb (progress s + 25) 100) then false else isUploading s;
     ticking := ticking s |}.

(** What can happen: a click on one of the three buttons, or a run of
    the interval callback. *)
Inductive event : Type :=
| Start
| Add
| Reset
| Tick (random : R).

(** When it can happen: a button that is not disabled, an interval that
    is running, and a random number in [0, 1). *)
Definition enabled (s : state) (e : event) : Prop :=
  match e with
  | Start => isUploading s = false /\ progress s <> 100
  | Add => isUploading s = false /\ progress s < 100
  | Reset => isUploading s = false
  | Tick random => ticking s = true /\ 0 <= random < 1
  end.

Definition step (s : state) (e : event) : state :=
  match e with
  | Start => startUpload s
  | Add => addProgress s
  | Reset => resetProgress s
  | Tick random => tick random s
  end.

(** The states the component can be in. *)
Inductive reachable : state -> Prop :=
| reachable_initial : reachable initial
| reachable_step s e : reachable s -> enabled s e -> reachable (step s e).



(** The status line and the line of messages below the buttons: each
    text is shown when its condition holds. *)
Definition statusLine (s : state) : list string :=
  (if isUploading s then ["📤 Uploading file..."%string] else [])
  ++ (if negb (isUploading s) && Reqb (progress s) 0
      then ["📁 Ready to upload"%string] else [])
  ++ (if negb (isUploading s) && Rltb 0 (progress s)
         && Rltb (progress s) 100
      then ["⏸️ Upload paused"%string] else [])
  ++ (if negb (isUploading s) && Reqb (progress s) 100
      then ["✅ Upload complete!"%string] else []).

Definition progressMessages (s : state) : list string :=
  (if Reqb (progress s) 0
   then ["Click 'Start Upload' to begin the simulation!"%string] else [])
  ++ (if Rltb 0 (progress s) && negb (Rltb 25 (progress s))
      then ["📦 Just getting started..."%string] else [])
  ++ (if Rltb 25 (progress s) && negb (Rltb 50 (progress s))
      then ["📦📦 You're doing great!"%string] else [])
  ++ (if Rltb 50 (progress s) && Rltb (progress s) 100
      then ["📦📦📦 Almost there!"%string] else [])
  ++ (if Reqb (progress s) 100
      then ["🎉 Perfect! Ready for another file?"%string] else []).

End UploadProgressSimulator.

(** ** Regular expressions without groups, and their [test] *)

Module RegExp.

(** A pattern: a set of characters, a choice, a sequence, a repetition;
    [Void] matches nothing and [Eps] the empty text. *)
Inductive regex : Type :=
| Void
| Eps
| Class (f : ascii -> bool)
| Alt (r1 r2 : regex)
| Seq (r1 r2 : regex)
| Star (r : regex).

(** [r+] *)
Definition Plus (r : regex) : regex := Seq r (Star r).

Fixpoint nullable (r : regex) : bool :=
  match r with
  | Void => false
  | Eps => true
  | Class _ => false
  | Alt r1 r2 => nullable r1 || nullable r2
  | Seq r1 r2 => nullable r1 && nullable r2
  | Star _ => true
  end.

(** What is left of [r] to match after the character [c]. *)
Fixpoint derive (c : ascii) (r : regex) : regex :=
  match r with
  | Void => Void
  | Eps => Void
  | Class f => if f c then Eps else Void
  | Alt r1 r2 => Alt (derive c r1) (derive c r2)
  | Seq r1 r2 =>
      if nullable r1 then Alt (Seq (derive c r1) r2) (derive c r2)
      else Seq (derive c r1) r2
  | Star r' => Seq (derive c r') (Star r')
  end.

Fixpoint matches (r : regex) (l : list ascii) : bool :=
  match l with
  | [] => nullable r
  | c :: l' => matches (derive c r) l'
  end.

(** [/^r$/.test(s)] *)
Definition test (r : regex) (s : string) : bool :=
  matches r (list_ascii_of_string s).

End RegExp.

(** ** The validation of the name form *)

Module NameInput.

Import RegExp.

Record validation : Type := {
  valid : bool;
  error : string
}.

(** [a-zA-Z] *)
Definition is_letter (c : ascii) : bool :=
  let n := nat_of_ascii c in
  ((97 <=? n) && (n <=? 122) || (65 <=? n) && (n <=? 90))%nat.

(** The class [[a-zA-Z\s'-]]. *)
Definition name_char (c : ascii) : bool :=
  is_letter c || Text.is_white_space c || Ascii.eqb c "'" || Ascii.eqb c "-".

(** The class [[^\s@]]. *)
Definition email_char (c : ascii) : bool :=
  negb (Text.is_white_space c || Ascii.eqb c "@").

(** [/^[a-zA-Z\s'-]+$/] *)
Definition name_pattern : regex := Plus (Class name_char).

(** [/^[^\s@]+@[^\s@]+\.[^\s@]+$/] *)
Definition emailRegex : regex :=
  Seq (Plus (Class email_char))
      (Seq (Class (Ascii.eqb "@"))
           (Seq (Plus (Class email_char))
                (Seq (Class (Ascii.eqb "."))
                     (Plus (Class email_char))))).

(** [s.includes(c)] for a text of one character. *)
Definition includes (c : ascii) (s : string) : bool :=
  existsb (Ascii.eqb c) (list_ascii_of_string s).

Definition validateName (name : string) : validation :=
  if (String.length name =? 0)%nat then
    {| valid := false; error := "Name is required" |}
  else if (String.length name <? 2)%nat then
    {| valid := false; error := "Name must be at least 2 characters" |}
  else if negb (test name_pattern name) then
    {| valid := false;
       error := "Name can only contain letters, spaces, hyphens, and apostrophes" |}
  else {| valid := true; error := "" |}.

Definition validateEmail (email : string) : validation :=
  if (String.length email =? 0)%nat then {| valid := true; error := "" |}
  else if negb (includes "@" email) || negb (includes "." email) then
    {| valid := false; error := "Email must contain @ and ." |}
  else if negb (test emailRegex email) then
    {| valid := false; error := "Please enter a valid email address" |}
  else {| valid := true; error := "" |}.

End NameInput.

(** * Notions the properties are stated with *)

Import Array DataAnalyzer.
Local Open Scope number_scope.

(** [a] may stand before [b] in a sorted array. *)
Definition before (a b : number) : Prop := (compareFn a b >? Fin 0) = false.

Definition no_NaN (l : list number) : Prop := Forall (fun n => isNaN n = false) l.
Definition all_finite (l : list number) : Prop :=
  Forall (fun n => isFinite n = true) l.

(** The element is a number and finite. *)
Definition is_finite_number (x : value) : bool :=
  match x with VNumber n => isFinite n | _ => false end.


(** The real number a finite number holds, and the reals of an array of
    finite numbers. *)
Definition to_real (n : number) : R :=
  match n with Fin r => r | _ => 0%R end.

Definition reals (l : list number) : list R := map to_real l.

(** The sum of a list of reals, and of the squares of their deviations
    from [m]. *)
Definition Rsum (rs : list R) : R := fold_right Rplus 0%R rs.

Definition sum_sq_dev (m : R) (rs : list R) : R :=
  fold_right (fun v acc => ((v - m) ^ 2 + acc)%R) 0%R rs.

(** The value at the fractional index [t] of the interpolation between
    the neighbours of a list of reals. *)
Definition interpolate (rs : list R) (t : R) : R :=
  let i := Z.to_nat (Zfloor t) in
  let j := Z.to_nat (Zceil t) in
  let w := (t - IZR (Zfloor t))%R in
  (nth i rs 0 * (1 - w) + nth j rs 0 * w)%R.

(** An array in ascending order, by [<=] on numbers. *)
Definition ascending (l : list number) : Prop :=
  StronglySorted (fun a b => (a <=? b) = true) l.

(** Text that does not begin with white space. *)
Definition starts_clean (l : list ascii) : Prop :=
  match l with
  | [] => True
  | c :: _ => Text.is_white_space c = false
  end.

(** The texts a pattern matches. *)
Inductive accepts : RegExp.regex -> list ascii -> Prop :=
| accepts_eps : accepts RegExp.Eps []
| accepts_class f c : f c = true -> accepts (RegExp.Class f) [c]
| accepts_alt_l r1 r2 l : accepts r1 l -> accepts (RegExp.Alt r1 r2) l
| accepts_alt_r r1 r2 l : accepts r2 l -> accepts (RegExp.Alt r1 r2) l
| accepts_seq r1 r2 l1 l2 :
    accepts r1 l1 -> accepts r2 l2 -> accepts (RegExp.Seq r1 r2) (l1 ++ l2)
| accepts_star_nil r : accepts (RegExp.Star r) []
| accepts_star_cons r l1 l2 :
    accepts r l1 -> accepts (RegExp.Star r) l2 ->
    accepts (RegExp.Star r) (l1 ++ l2).

(** * Properties *)

(** ** Comparisons of reals as booleans *)

Lemma Rltb_true (a b : R) : Rltb a b = true <-> (a < b)%R.
Proof. unfold Rltb; destruct (Rlt_dec a b); split; intros; auto; discriminate. Qed.

Lemma Rltb_false (a b : R) : Rltb a b = false <-> (b <= a)%R.
Proof.
  unfold Rltb; destruct (Rlt_dec a b); split; intros; auto; try discriminate; lra.
Qed.

Lemma Reqb_true (a b : R) : Reqb a b = true <-> a = b.
Proof.
  unfold Reqb; destruct (Req_dec_T a b); split; intros; auto; discriminate.
Qed.

Lemma Reqb_false (a b : R) : Reqb a b = false <-> a <> b.
Proof.
  unfold Reqb; destruct (Req_dec_T a b); split; intros; auto; try discriminate.
  contradiction.
Qed.

Lemma Reqb_refl (a : R) : Reqb a a = true.
Proof. now apply Reqb_true. Qed.

(** Decides the comparisons of reals in the goal whose outcome [lra]
    can settle from the context. *)
Ltac decide_R :=
  repeat match goal with
  | |- context [Rltb ?a ?b] =>
      first [ rewrite (proj2 (Rltb_true a b)) by lra
            | rewrite (proj2 (Rltb_false a b)) by lra ]
  | |- context [Reqb ?a ?b] =>
      first [ rewrite (proj2 (Reqb_true a b)) by lra
            | rewrite (proj2 (Reqb_false a b)) by lra ]
  end.

(** ** The order of numbers *)

Lemma compareFn_gt (a b : number) :
  isNaN a = false -> isNaN b = false -> (compareFn a b >? Fin 0) = (b <? a).
Proof.
  destruct a as [| | |x], b as [| | |y]; simpl; try discriminate; intros _ _;
    try reflexivity.
  unfold compareFn, gt; simpl.
  destruct (Rlt_dec y x) as [H|H].
  - rewrite (proj2 (Rltb_true y x) H). apply Rltb_true; lra.
  - rewrite (proj2 (Rltb_false y x)) by lra. apply Rltb_false; lra.
Qed.

Lemma before_total (a b : number) : before a b \/ before b a.
Proof.
  unfold before, compareFn, gt.
  destruct a as [| | |x], b as [| | |y]; simpl; auto.
  destruct (Rlt_dec x y).
  - left. apply Rltb_false; lra.
  - right. apply Rltb_false; lra.
Qed.

Lemma before_trans (a b c : number) :
  isNaN b = false -> before a b -> before b c -> before a c.
Proof.
  unfold before, compareFn, gt.
  destruct a as [| | |x], b as [| | |y], c as [| | |z]; simpl;
    try discriminate; auto; intros _.
  rewrite !Rltb_false. lra.
Qed.

Lemma before_antisym (a b : number) :
  isNaN a = false -> isNaN b = false -> before a b -> before b a -> a = b.
Proof.
  unfold before, compareFn, gt.
  destruct a as [| | |x], b as [| | |y]; simpl; try discriminate; auto;
    intros _ _.
  rewrite !Rltb_false. intros. f_equal. lra.
Qed.

(** ** Sorting *)

Lemma insert_perm cmp x l : Permutation (x :: l) (insert cmp x l).
Proof.
  induction l as [|y l IH]; cbn [insert]; auto.
  destruct (cmp x y >? Fin 0); auto.
  apply perm_trans with (y :: x :: l); [apply perm_swap | apply perm_skip, IH].
Qed.

Lemma sort_perm cmp l : Permutation l (sort cmp l).
Proof.
  induction l as [|x l IH]; simpl; auto.
  apply perm_trans with (x :: sort cmp l); [apply perm_skip, IH | apply insert_perm].
Qed.

Lemma sort_length cmp l : List.length (sort cmp l) = List.length l.
Proof. symmetry. apply Permutation_length, sort_perm. Qed.

Lemma insert_sorted x l :
  isNaN x = false -> no_NaN l ->
  StronglySorted before l -> StronglySorted before (insert compareFn x l).
Proof.
  intros Hx Hl Hs. induction Hs as [|y l Hs IH Hy]; cbn [insert].
  - repeat constructor.
  - inversion Hl as [|? ? Hny Hl']; subst.
    destruct (compareFn x y >? Fin 0) eqn:E.
    + constructor; auto.
      apply (Permutation_Forall (insert_perm compareFn x l)).
      constructor; auto.
      destruct (before_total y x) as [H|H]; auto.
      unfold before in H. congruence.
    + constructor. { now constructor. }
      constructor; auto.
      revert Hy. apply Forall_impl. intros z Hz.
      now apply before_trans with y.
Qed.

Lemma sort_sorted l : no_NaN l -> StronglySorted before (sort compareFn l).
Proof.
  induction 1 as [|x l Hx Hl IH]; simpl.
  - constructor.
  - apply insert_sorted; auto.
    apply (Permutation_Forall (sort_perm compareFn l)). exact Hl.
Qed.

(** A sorted array is determined by its elements. *)
Lemma sorted_perm_unique l l' :
  no_NaN l -> StronglySorted before l -> StronglySorted before l' ->
  Permutation l l' -> l = l'.
Proof.
  intros Hn Hs. revert l'.
  induction Hs as [|x l Hs IH Hx]; intros l' Hs' Hp.
  - now apply Permutation_nil in Hp.
  - destruct l' as [|y l'].
    { symmetry in Hp. now apply Permutation_nil in Hp. }
    inversion Hn as [|? ? Hnx Hnl]; subst.
    inversion Hs' as [|? ? Hs'' Hy]; subst.
    assert (Hn' : no_NaN (y :: l')) by exact (Permutation_Forall Hp Hn).
    inversion Hn' as [|? ? Hny Hnl']; subst.
    assert (x = y) as ->.
    { apply before_antisym; auto.
      - assert (In y (x :: l)) as [->|Hin]
          by (apply (Permutation_in _ (Permutation_sym Hp)); now left).
        + destruct (before_total y y); auto.
        + rewrite Forall_forall in Hx. auto.
      - assert (In x (y :: l')) as [->|Hin]
          by (apply (Permutation_in _ Hp); now left).
        + destruct (before_total x x); auto.
        + rewrite Forall_forall in Hy. auto. }
    f_equal. apply IH; auto. now apply Permutation_cons_inv in Hp.
Qed.

(** ** The coercion step *)

Lemma coerce_cons x arr :
  coerce (x :: arr) =
  match coerce_element x with
  | Some n => n :: coerce arr
  | None => coerce arr
  end.
Proof. unfold coerce; simpl. now destruct (coerce_element x). Qed.

Lemma coerce_element_not_NaN x n : coerce_element x = Some n -> isNaN n = false.
Proof.
  destruct x as [m|s| | | |]; simpl; try discriminate.
  - destruct (isNaN m) eqn:E; simpl; [discriminate|]. now intros [= <-].
  - destruct (trim_nonempty s); simpl; [|discriminate].
    destruct (isNaN (Number s)) eqn:E; simpl; [discriminate|]. now intros [= <-].
Qed.

Lemma coerce_no_NaN arr : no_NaN (coerce arr).
Proof.
  induction arr as [|x arr IH]; [constructor|].
  rewrite coerce_cons. destruct (coerce_element x) eqn:E; auto.
  constructor; auto. now apply coerce_element_not_NaN with x.
Qed.

Lemma coerce_In x n arr :
  In x arr -> coerce_element x = Some n -> In n (coerce arr).
Proof.
  induction arr as [|y arr IH]; simpl; [tauto|].
  intros [->|Hin] Hx; rewrite coerce_cons.
  - rewrite Hx. now left.
  - destruct (coerce_element y); [right|]; auto.
Qed.

Lemma coerce_perm arr arr' :
  Permutation arr arr' -> Permutation (coerce arr) (coerce arr').
Proof.
  induction 1 as [|x l l' Hp IH|x y l|l l' l'' H1 IH1 H2 IH2].
  - constructor.
  - rewrite !coerce_cons. destruct (coerce_element x); auto.
  - rewrite !coerce_cons.
    destruct (coerce_element x), (coerce_element y); auto. apply perm_swap.
  - now apply perm_trans with (coerce l').
Qed.

Lemma coerce_finite_numbers arr :
  Forall (fun x => is_finite_number x = true) arr ->
  List.length (coerce arr) = List.length arr /\ all_finite (coerce arr).
Proof.
  induction 1 as [|x arr Hx Harr [IHl IHf]]; simpl.
  - split; [reflexivity|constructor].
  - rewrite coerce_cons.
    destruct x as [[| | |r]| | | | |]; try discriminate; simpl.
    split; [now f_equal|]. now constructor.
Qed.

(** ** How [analyze] ends *)

Lemma analyze_empty arr : coerce arr = [] -> analyze arr = Failure error_message.
Proof. unfold analyze. now intros ->. Qed.

Lemma analyze_nonempty arr :
  coerce arr <> [] -> analyze arr = Stats (stats_of (sort compareFn (coerce arr))).
Proof.
  unfold analyze. destruct (coerce arr) as [|n l]; [congruence|]. reflexivity.
Qed.

Lemma analyze_Stats arr a :
  analyze arr = Stats a ->
  coerce arr <> [] /\ a = stats_of (sort compareFn (coerce arr)).
Proof.
  intros H. destruct (coerce arr) as [|n l] eqn:E.
  - rewrite analyze_empty in H by assumption. discriminate.
  - rewrite analyze_nonempty in H by (rewrite E; discriminate).
    split; [discriminate|]. rewrite E in H. now injection H.
Qed.

(** A successful result is the record of a sorted, non-empty array
    without NaN that holds the coerced numeric sequence. *)
Lemma analyze_sorted arr a :
  analyze arr = Stats a ->
  exists l, a = stats_of l /\ Permutation (coerce arr) l
            /\ StronglySorted before l /\ no_NaN l /\ l <> [].
Proof.
  intros H. apply analyze_Stats in H as [Hne ->].
  pose proof (coerce_no_NaN arr) as Hn.
  pose proof (sort_perm compareFn (coerce arr)) as Hp.
  exists (sort compareFn (coerce arr)). repeat split; auto.
  - now apply sort_sorted.
  - exact (Permutation_Forall Hp Hn).
  - intros E. rewrite E in Hp. apply Permutation_sym, Permutation_nil in Hp. auto.
Qed.

(** ** The coercion step and infinities *)

(** C1, the claim as the specification states it, fails: [analyze] tests
    with [isNaN], not with [isFinite], so the number +Infinity, the
    number -Infinity and the text "Infinity" all reach the coerced
    numeric sequence. *)
Lemma coerce_keeps_infinities :
  coerce [VNumber PInf; VNumber NInf; VString "Infinity"] = [PInf; NInf; PInf]
  /\ isFinite PInf = false /\ isFinite NInf = false
  /\ isFinite (Number "Infinity") = false.
Proof. repeat split. Qed.

(** C1, amended: the coercion step discards exactly the elements that
    are the number NaN, text that is blank or whose numeric parse is
    NaN, and what is neither a number nor text; so NaN never appears in
    the coerced numeric sequence, while every other number of the input,
    an infinity included, and the parse of every other text do appear. *)
Theorem coerce_discards_NaN_only (arr : list value) :
  (forall x, coerce_element x = None <->
     match x with
     | VNumber n => isNaN n = true
     | VString s => trim_nonempty s = false \/ isNaN (Number s) = true
     | _ => True
     end)
  /\ (forall n, In n (coerce arr) -> isNaN n = false)
  /\ (forall n, In (VNumber n) arr -> isNaN n = false -> In n (coerce arr))
  /\ (forall s, In (VString s) arr -> trim_nonempty s = true ->
        isNaN (Number s) = false -> In (Number s) (coerce arr)).
Proof.
  repeat split.
  - destruct x as [n|s| | | |]; simpl; auto.
    + destruct (isNaN n); simpl; [reflexivity|discriminate].
    + destruct (trim_nonempty s), (isNaN (Number s)); simpl; auto; discriminate.
  - destruct x as [n|s| | | |]; simpl; auto.
    + now intros ->.
    + intros [-> | ->]; simpl; auto. now rewrite andb_false_r.
  - intros n Hin. pose proof (coerce_no_NaN arr) as H.
    unfold no_NaN in H. rewrite Forall_forall in H. auto.
  - intros n Hin Hn. apply coerce_In with (VNumber n); auto.
    simpl. now rewrite Hn.
  - intros s Hin Ht Hn. apply coerce_In with (VString s); auto.
    simpl. now rewrite Ht, Hn.
Qed.

Lemma coerce_discards_NaN_only_witness :
  In PInf (coerce [VNumber NaN; VNumber PInf; VString "abc"]).
Proof.
  apply (coerce_discards_NaN_only [VNumber NaN; VNumber PInf; VString "abc"]).
  - simpl. auto.
  - reflexivity.
Defined.

(** ** The empty dataset *)

(** C4: [analyze] returns the error record with the message
    "No valid numeric values found." exactly when the coerced numeric
    sequence is empty, the empty input included; there is no other
    error, and [analyze], a total function, returns it as a value. *)
Theorem analyze_empty_dataset (arr : list value) :
  (coerce arr = [] ->
     analyze arr = Failure "No valid numeric values found.")
  /\ (forall e, analyze arr = Failure e ->
        coerce arr = [] /\ e = "No valid numeric values found."%string)
  /\ analyze [] = Failure "No valid numeric values found.".
Proof.
  split; [|split].
  - apply analyze_empty.
  - intros e H. destruct (coerce arr) as [|n l] eqn:E.
    + rewrite analyze_empty in H by assumption. now injection H as <-.
    + rewrite analyze_nonempty in H by (rewrite E; discriminate). discriminate.
  - reflexivity.
Qed.

Lemma analyze_empty_dataset_witness :
  analyze [VNull; VString "abc"; VString "  "; VNumber NaN; VBoolean true]
  = Failure "No valid numeric values found.".
Proof.
  apply (proj1 (analyze_empty_dataset
           [VNull; VString "abc"; VString "  "; VNumber NaN; VBoolean true])).
  reflexivity.
Defined.

(** ** The count *)

(** C6: on a non-empty input whose elements are all finite numbers
    [analyze] succeeds, and [count] is the length of the input. *)
Theorem analyze_finite_numbers_count (arr : list value) :
  arr <> [] ->
  Forall (fun x => is_finite_number x = true) arr ->
  exists a, analyze arr = Stats a /\ count a = List.length arr.
Proof.
  intros Hne Hfin.
  destruct (coerce_finite_numbers arr Hfin) as [Hlen _].
  assert (Hc : coerce arr <> []).
  { intros E. rewrite E in Hlen. destruct arr; [congruence|discriminate]. }
  eexists. split; [now apply analyze_nonempty|].
  simpl. unfold count_of. now rewrite sort_length.
Qed.

Lemma analyze_finite_numbers_count_witness :
  exists a, analyze [VNumber (Fin 72); VNumber (Fin 75); VNumber (Fin 68)]
            = Stats a /\ count a = 3%nat.
Proof.
  apply (analyze_finite_numbers_count
           [VNumber (Fin 72); VNumber (Fin 75); VNumber (Fin 68)]).
  - discriminate.
  - repeat constructor.
Defined.

(** ** The order of the input *)

(** C7: [analyze] returns the same result on an input and on every
    permutation of it: the same choice between the error and the
    record, and the same record, field by field. *)
Theorem analyze_permutation (arr arr' : list value) :
  Permutation arr arr' -> analyze arr = analyze arr'.
Proof.
  intros Hp. apply coerce_perm in Hp.
  assert (Hs : sort compareFn (coerce arr) = sort compareFn (coerce arr')).
  { apply sorted_perm_unique.
    - exact (Permutation_Forall (sort_perm _ _) (coerce_no_NaN arr)).
    - apply sort_sorted, coerce_no_NaN.
    - apply sort_sorted, coerce_no_NaN.
    - apply perm_trans with (coerce arr); [apply Permutation_sym, sort_perm|].
      apply perm_trans with (coerce arr'); [exact Hp|apply sort_perm]. }
  unfold analyze. rewrite Hs, (Permutation_length Hp). reflexivity.
Qed.

Lemma analyze_permutation_witness :
  analyze [VString "100"; VNumber (Fin 50); VNull]
  = analyze [VNull; VNumber (Fin 50); VString "100"].
Proof.
  apply analyze_permutation.
  apply perm_trans with [VNumber (Fin 50); VString "100"; VNull].
  - apply perm_swap.
  - apply perm_trans with [VNumber (Fin 50); VNull; VString "100"].
    + apply perm_skip, perm_swap.
    + apply perm_swap.
Defined.

(** ** Rounding to two decimals *)

Lemma pow_10_2 : Math.pow (Fin 10) 2 = Fin 100.
Proof. simpl. f_equal. lra. Qed.

Lemma round_Fin (x : R) :
  round (Fin x) 2 = Fin (IZR (Zfloor (x * 100 + / 2)) / 100).
Proof.
  unfold round. rewrite pow_10_2. simpl. now decide_R.
Qed.




(** ** Arithmetic on finite numbers *)

Lemma div_Fin (a b : R) : b <> 0%R -> Fin a / Fin b = Fin (a / b).
Proof. intros H. simpl. now rewrite (proj2 (Reqb_false b 0) H). Qed.

Lemma INR_pos_length {A} (l : list A) : l <> [] -> (1 <= INR (List.length l))%R.
Proof.
  destruct l as [|x l]; [congruence|]. intros _.
  change (List.length (x :: l)) with (S (List.length l)).
  rewrite S_INR. pose proof (pos_INR (List.length l)). lra.
Qed.

Lemma floor_IZR (z : Z) : Math.floor (Fin (IZR z)) = Fin (IZR z).
Proof. simpl. now rewrite ZfloorZ. Qed.

Lemma ceil_IZR (z : Z) : Math.ceil (Fin (IZR z)) = Fin (IZR z).
Proof. simpl. unfold Zceil. rewrite ZfloorNZ. f_equal. f_equal. lia. Qed.

Lemma get_INR nums (k : nat) : get nums (Fin (INR k)) = item nums k.
Proof.
  unfold get, to_index. rewrite INR_IZR_INZ, ZfloorZ, Reqb_refl.
  rewrite (proj2 (Rltb_false (IZR (Z.of_nat k)) 0)).
  - simpl. now rewrite Nat2Z.id.
  - apply IZR_le. lia.
Qed.

(** ** Percentiles at the ranks that fall on an index *)

(** The fractional index of the rank [p] in an array of [n] numbers. *)
Lemma percentile_index (n : nat) (p : R) :
  Fin p / Fin 100 * (of_nat n - Fin 1) = Fin (p / 100 * (INR n - 1)).
Proof. rewrite div_Fin by lra. reflexivity. Qed.

Lemma percentile_in_range nums (p : R) :
  (0 <= p <= 100)%R ->
  percentile_of nums (Fin p) =
  let idx := Fin (p / 100 * (INR (List.length nums) - 1)) in
  if Math.floor idx === Math.ceil idx then get nums (Math.floor idx)
  else get nums (Math.floor idx) * (Fin 1 - (idx - Math.floor idx))
       + get nums (Math.ceil idx) * (idx - Math.floor idx).
Proof.
  intros Hp. unfold percentile_of, gt.
  change (Fin p <? Fin 0) with (Rltb p 0).
  change (Fin 100 <? Fin p) with (Rltb 100 p).
  decide_R. cbv zeta. unfold count_of. rewrite percentile_index. reflexivity.
Qed.

Lemma percentile_at_index nums (p : R) (k : nat) :
  (0 <= p <= 100)%R ->
  (p / 100 * (INR (List.length nums) - 1))%R = INR k ->
  percentile_of nums (Fin p) = item nums k.
Proof.
  intros Hp Hk. rewrite percentile_in_range by assumption.
  cbv zeta. rewrite Hk, INR_IZR_INZ, floor_IZR, ceil_IZR.
  rewrite <- INR_IZR_INZ.
  change (Fin (INR k) === Fin (INR k)) with (Reqb (INR k) (INR k)).
  rewrite Reqb_refl. apply get_INR.
Qed.



(** ** Arrays of finite numbers *)

Lemma all_finite_reals l : all_finite l -> l = map Fin (reals l).
Proof.
  induction 1 as [|n l Hn Hl IH]; simpl; [reflexivity|].
  destruct n; try discriminate. simpl. now f_equal.
Qed.

Lemma item_Fin rs (i : nat) :
  (i < List.length rs)%nat -> item (map Fin rs) i = Fin (nth i rs 0%R).
Proof.
  intros H. unfold item.
  rewrite (nth_indep _ NaN (Fin 0)) by now rewrite length_map.
  apply (map_nth Fin).
Qed.

Lemma before_Fin (x y : R) : before (Fin x) (Fin y) <-> (x <= y)%R.
Proof.
  unfold before, compareFn, gt. simpl. rewrite Rltb_false. lra.
Qed.

Lemma sorted_reals rs :
  StronglySorted before (map Fin rs) -> StronglySorted Rle rs.
Proof.
  induction rs as [|x rs IH]; simpl; intros H; [constructor|].
  inversion H as [|? ? Hs Hall]; subst. constructor; auto.
  rewrite Forall_map in Hall. revert Hall. apply Forall_impl.
  intros y. apply before_Fin.
Qed.


Lemma le_Fin (x y : R) : (Fin x <=? Fin y) = true <-> (x <= y)%R.
Proof.
  unfold le. simpl. rewrite orb_true_iff, Rltb_true, Reqb_true. lra.
Qed.

(** The local constants on an array of finite numbers. *)

Lemma reduce_add_Fin (acc : R) rs :
  reduce (fun s v => s + v) (Fin acc) (map Fin rs) = Fin (acc + Rsum rs).
Proof.
  unfold reduce. revert acc.
  induction rs as [|x rs IH]; intros acc; simpl.
  - f_equal. lra.
  - rewrite IH. f_equal. lra.
Qed.

Lemma sum_of_Fin rs : sum_of (map Fin rs) = Fin (Rsum rs).
Proof. unfold sum_of. rewrite reduce_add_Fin. f_equal. lra. Qed.

Lemma avg_of_Fin rs :
  rs <> [] -> avg_of (map Fin rs) = Fin (Rsum rs / INR (List.length rs)).
Proof.
  intros H. unfold avg_of, count_of, of_nat.
  rewrite sum_of_Fin, length_map, div_Fin; [reflexivity|].
  pose proof (INR_pos_length rs H). lra.
Qed.

Lemma reduce_sq_dev_Fin (m acc : R) rs :
  reduce (fun a v => a + Math.pow (v - Fin m) 2) (Fin acc) (map Fin rs)
  = Fin (acc + sum_sq_dev m rs).
Proof.
  unfold reduce. revert acc.
  induction rs as [|x rs IH]; intros acc; simpl.
  - f_equal. lra.
  - rewrite IH. f_equal. lra.
Qed.


Lemma variance_of_Fin rs :
  rs <> [] ->
  variance_of (map Fin rs)
  = Fin (sum_sq_dev (Rsum rs / INR (List.length rs)) rs / INR (List.length rs)).
Proof.
  intros H. unfold variance_of. rewrite avg_of_Fin by assumption.
  rewrite reduce_sq_dev_Fin. unfold count_of, of_nat.
  rewrite length_map, div_Fin.
  - f_equal. lra.
  - pose proof (INR_pos_length rs H). lra.
Qed.

(** A successful result on finite coerced values is the record of a
    sorted, non-empty list of reals. *)
Lemma analyze_finite arr a :
  analyze arr = Stats a -> all_finite (coerce arr) ->
  exists rs, a = stats_of (map Fin rs) /\ rs <> []
             /\ StronglySorted Rle rs
             /\ Permutation (coerce arr) (map Fin rs).
Proof.
  intros H Hfin. apply analyze_sorted in H as (l & -> & Hp & Hs & _ & Hne).
  assert (Hl : all_finite l) by exact (Permutation_Forall Hp Hfin).
  apply all_finite_reals in Hl. exists (reals l). rewrite <- Hl.
  repeat split; auto.
  - intros E. rewrite E in Hl. now subst l.
  - apply sorted_reals. now rewrite <- Hl.
Qed.

(** ** The standard deviation *)



(** ** A single value *)

Lemma round_zero : round (Fin 0) 2 = Fin 0.
Proof. rewrite round_Fin. rewrite (Zfloor_eq 0) by lra. f_equal. lra. Qed.

Lemma round_one_eighth : round (Fin 0.125) 2 = Fin 0.13.
Proof. rewrite round_Fin, (Zfloor_eq 13) by lra. f_equal; lra. Qed.

Lemma analyze_singleton arr (n : number) :
  coerce arr = [n] -> analyze arr = Stats (stats_of [n]).
Proof. unfold analyze. now intros ->. Qed.

(** C10, the claim as it is stated, fails on the median: the record
    holds the median rounded to 2 decimals, so for the single value
    0.125 its [median] is 0.13, which is neither the value nor [max]. *)
Lemma single_value_median_rounded :
  coerce [VNumber (Fin 0.125)] = [Fin 0.125]
  /\ analyze [VNumber (Fin 0.125)] = Stats (stats_of [Fin 0.125])
  /\ median (stats_of [Fin 0.125]) = Fin 0.13
  /\ median (stats_of [Fin 0.125]) <> Fin 0.125.
Proof.
  assert (H : median (stats_of [Fin 0.125]) = Fin 0.13).
  { cbn [median stats_of]. unfold median_of. simpl.
    change (item [Fin 0.125] 0) with (Fin 0.125). apply round_one_eighth. }
  repeat split; auto. rewrite H. intros [= E]. lra.
Qed.

(** C10, amended: when the coerced sequence is the one finite value [v],
    [analyze] succeeds with [count = 1], [min = max = v], the median
    [v] before rounding and [v] rounded to 2 decimals in the record,
    [range = 0], [populationStandardDeviation = 0], nothing above and
    nothing below the average, and [percentile(p) = v] for every [p]
    in [0,100]. *)
Theorem analyze_single_value (arr : list value) (v : R) :
  coerce arr = [Fin v] ->
  exists a,
    analyze arr = Stats a
    /\ count a = 1%nat /\ min a = Fin v /\ max a = Fin v
    /\ median_of (nums a) = Fin v /\ median a = round (Fin v) 2
    /\ range a = Fin 0 /\ stddev a = Fin 0
    /\ aboveAvg a = [] /\ belowAvg a = []
    /\ (forall p : R, (0 <= p <= 100)%R -> percentile a (Fin p) = Fin v).
Proof.
  intros H. exists (stats_of [Fin v]).
  split; [now apply analyze_singleton|].
  cbn [count min max nums median range stddev aboveAvg belowAvg percentile
       stats_of].
  assert (Hne : [v] <> []) by discriminate.
  assert (Havg : avg_of [Fin v] = Fin v).
  { change [Fin v] with (map Fin [v]).
    rewrite (avg_of_Fin [v] Hne). simpl. f_equal. lra. }
  repeat split.
  - unfold range_of. change (max_of [Fin v] - min_of [Fin v]) with (Fin (v - v)).
    replace (v - v)%R with 0%R by lra. apply round_zero.
  - unfold stddev_of. change [Fin v] with (map Fin [v]).
    rewrite (variance_of_Fin [v] Hne). simpl.
    replace ((v - (v + 0) / 1) * ((v - (v + 0) / 1) * 1) + 0)%R with 0%R by lra.
    replace (0 / 1)%R with 0%R by lra.
    decide_R. rewrite sqrt_0. apply round_zero.
  - unfold aboveAvg_of. rewrite Havg. simpl. unfold gt. simpl. now decide_R.
  - unfold belowAvg_of. rewrite Havg. simpl. now decide_R.
  - intros p Hp. apply (percentile_at_index [Fin v] p 0); simpl; lra.
Qed.

Lemma analyze_single_value_witness :
  exists a,
    analyze [VNull; VNumber (Fin 42)] = Stats a
    /\ count a = 1%nat /\ min a = Fin 42 /\ max a = Fin 42
    /\ median_of (nums a) = Fin 42 /\ median a = round (Fin 42) 2
    /\ range a = Fin 0 /\ stddev a = Fin 0
    /\ aboveAvg a = [] /\ belowAvg a = []
    /\ (forall p : R, (0 <= p <= 100)%R -> percentile a (Fin p) = Fin 42).
Proof. apply (analyze_single_value [VNull; VNumber (Fin 42)] 42). reflexivity. Defined.

(** ** The invariant of a successful result *)











(** ** Percentiles of finite values *)

Lemma get_IZR rs (z : Z) :
  (0 <= z < Z.of_nat (List.length rs))%Z ->
  get (map Fin rs) (Fin (IZR z)) = Fin (nth (Z.to_nat z) rs 0%R).
Proof.
  intros Hz. rewrite <- (Z2Nat.id z) at 1 by lia.
  rewrite <- INR_IZR_INZ, get_INR. apply item_Fin. lia.
Qed.

(** The floor and the ceiling of a fractional index are indices. *)
Lemma index_bounds (n : nat) (t : R) :
  (0 <= t <= INR n - 1)%R ->
  (0 <= Zfloor t <= Zceil t)%Z /\ (Zceil t < Z.of_nat n)%Z
  /\ (Zceil t <= Zfloor t + 1)%Z.
Proof.
  intros Ht. rewrite INR_IZR_INZ in Ht.
  pose proof (Zfloor_bound t) as Hf. pose proof (Zceil_bound t) as Hc.
  repeat split.
  - apply Zfloor_lub. simpl. lra.
  - apply le_IZR. lra.
  - apply lt_IZR. lra.
  - apply Z.lt_succ_r, lt_IZR. rewrite succ_IZR, plus_IZR. simpl. lra.
Qed.

Lemma percentile_of_Fin rs (p : R) :
  rs <> [] -> (0 <= p <= 100)%R ->
  percentile_of (map Fin rs) (Fin p)
  = Fin (interpolate rs (p / 100 * (INR (List.length rs) - 1))).
Proof.
  intros Hne Hp. rewrite percentile_in_range by assumption.
  rewrite length_map. cbv zeta.
  pose proof (INR_pos_length rs Hne) as Hlen.
  set (t := (p / 100 * (INR (List.length rs) - 1))%R).
  assert (Ht : (0 <= t <= INR (List.length rs) - 1)%R).
  { unfold t. split; [apply Rmult_le_pos; lra|].
    rewrite <- (Rmult_1_l (INR (List.length rs) - 1)) at 2.
    apply Rmult_le_compat_r; lra. }
  destruct (index_bounds _ _ Ht) as (Hf & Hc & _).
  cbn [Math.floor Math.ceil].
  rewrite !get_IZR by lia.
  change (Fin (IZR (Zfloor t)) === Fin (IZR (Zceil t)))
    with (Reqb (IZR (Zfloor t)) (IZR (Zceil t))).
  unfold interpolate. cbv zeta.
  destruct (Req_dec_T (IZR (Zfloor t)) (IZR (Zceil t))) as [E|E].
  - rewrite (proj2 (Reqb_true _ _) E). apply eq_IZR in E. rewrite <- E.
    f_equal. lra.
  - rewrite (proj2 (Reqb_false _ _) E). reflexivity.
Qed.






(** ** The examples of the specification *)

(** Sorts a concrete array of finite numbers by deciding each comparison. *)
Ltac sort_concrete :=
  cbn [sort fold_right insert]; unfold compareFn;
  repeat (change (Fin ?x - Fin ?y >? Fin 0) with (Rltb 0 (x - y));
          decide_R; cbn [insert]).

Example Number_examples :
  Number "100" = Fin 100 /\ Number "85.5" = Fin 85.5 /\ Number "abc" = NaN
  /\ Number " 12e-1 " = Fin 1.2 /\ Number "0x1F" = Fin 31
  /\ Number "-Infinity" = NInf /\ Number "" = Fin 0 /\ Number "1,5" = NaN.
Proof.
  repeat split; unfold Number; simpl; f_equal; lra.
Qed.

(** The mixed dataset: ["100", 50, null, "abc", 75, "85.5"]. *)
Example analyze_mixed :
  let arr := [VString "100"; VNumber (Fin 50); VNull; VString "abc";
              VNumber (Fin 75); VString "85.5"] in
  coerce arr = [Fin 100; Fin 50; Fin 75; Fin 85.5]
  /\ analyze arr = Stats (stats_of [Fin 50; Fin 75; Fin 85.5; Fin 100])
  /\ count (stats_of [Fin 50; Fin 75; Fin 85.5; Fin 100]) = 4%nat
  /\ min (stats_of [Fin 50; Fin 75; Fin 85.5; Fin 100]) = Fin 50
  /\ max (stats_of [Fin 50; Fin 75; Fin 85.5; Fin 100]) = Fin 100
  /\ sum (stats_of [Fin 50; Fin 75; Fin 85.5; Fin 100]) = Fin 310.5
  /\ avg (stats_of [Fin 50; Fin 75; Fin 85.5; Fin 100]) = Fin 77.63.
Proof.
  cbv zeta.
  destruct Number_examples as (H100 & H85 & _).
  assert (Hc : coerce [VString "100"; VNumber (Fin 50); VNull; VString "abc";
                       VNumber (Fin 75); VString "85.5"]
               = [Fin 100; Fin 50; Fin 75; Fin 85.5]).
  { unfold coerce. cbn [map coerce_element isNaN negb].
    rewrite H100, H85. reflexivity. }
  split; [exact Hc|]. split.
  { unfold analyze. rewrite Hc. cbn [List.length Nat.eqb].
    sort_concrete. reflexivity. }
  cbn [count min max sum avg stats_of].
  change [Fin 50; Fin 75; Fin 85.5; Fin 100] with (map Fin [50; 75; 85.5; 100]%R).
  rewrite sum_of_Fin, avg_of_Fin by discriminate.
  repeat split.
  - rewrite round_Fin. simpl Rsum.
    rewrite (Zfloor_eq 31050) by lra. f_equal; lra.
  - rewrite round_Fin. simpl Rsum. simpl INR.
    rewrite (Zfloor_eq 7763) by lra. f_equal; lra.
Qed.

Example median_examples :
  median_of [Fin 1; Fin 2; Fin 3; Fin 4; Fin 5] = Fin 3
  /\ median_of [Fin 1; Fin 2; Fin 3; Fin 4] = Fin 2.5.
Proof.
  split; [reflexivity|].
  unfold median_of. simpl. decide_R. f_equal. lra.
Qed.

Example percentile_out_of_range nums :
  percentile_of nums (Fin (-1)) = NaN /\ percentile_of nums (Fin 101) = NaN
  /\ percentile_of nums NaN = NaN.
Proof.
  unfold percentile_of, gt.
  change (Fin (-1) <? Fin 0) with (Rltb (-1) 0).
  change (Fin 101 <? Fin 0) with (Rltb 101 0).
  change (Fin 100 <? Fin 101) with (Rltb 100 101).
  decide_R. repeat split.
Qed.

Example stddev_example :
  stddev_of [Fin 2; Fin 4; Fin 4; Fin 4; Fin 5; Fin 5; Fin 7; Fin 9] = Fin 2.
Proof.
  change [Fin 2; Fin 4; Fin 4; Fin 4; Fin 5; Fin 5; Fin 7; Fin 9]
    with (map Fin [2; 4; 4; 4; 5; 5; 7; 9]%R).
  unfold stddev_of. rewrite variance_of_Fin by discriminate.
  simpl Rsum. simpl List.length. simpl INR. simpl sum_sq_dev.
  match goal with |- Math.sqrt (Fin ?v) = _ =>
    replace v with (2 * 2)%R by field end.
  simpl. decide_R. rewrite sqrt_square by lra. reflexivity.
Qed.

(** * Further properties of the analyzer *)

(** Settles a fact about the order of numbers by the cases of each
    number and linear arithmetic on the reals they hold. *)
Ltac number_cases :=
  unfold before, compareFn, le, gt in *;
  repeat match goal with n : number |- _ => destruct n end;
  simpl in *; try discriminate; try reflexivity; try tauto;
  rewrite ?orb_true_iff, ?orb_false_iff, ?Rltb_true, ?Rltb_false,
    ?Reqb_true, ?Reqb_false in *;
  try lra.

Lemma before_le (a b : number) :
  isNaN a = false -> isNaN b = false -> before a b <-> (a <=? b) = true.
Proof.
  intros Ha Hb. split; intros H; number_cases.
Qed.

Lemma le_refl (a : number) : isNaN a = false -> (a <=? a) = true.
Proof. intros Ha. number_cases. Qed.

Lemma sorted_ascending l :
  no_NaN l -> StronglySorted before l -> ascending l.
Proof.
  intros Hn Hs. induction Hs as [|x l Hs IH Hx]; [constructor|].
  inversion Hn as [|? ? Hnx Hnl]; subst.
  constructor; [now apply IH|].
  rewrite Forall_forall in *. intros y Hy.
  apply before_le; auto.
Qed.

Lemma item_last (l : list number) :
  item l (List.length l - 1) = last l NaN.
Proof.
  unfold item. induction l as [|x l IH]; [reflexivity|].
  destruct l as [|y l]; [reflexivity|].
  change (last (x :: y :: l) NaN) with (last (y :: l) NaN). rewrite <- IH.
  cbn [List.length]. rewrite !Nat.sub_succ, !Nat.sub_0_r. reflexivity.
Qed.

Lemma ascending_last l (n : number) :
  no_NaN l -> ascending l -> In n l -> (n <=? last l NaN) = true.
Proof.
  intros Hn Hs. revert n.
  induction Hs as [|x l Hs IH Hx]; intros n Hin; [destruct Hin|].
  inversion Hn as [|? ? Hnx Hnl]; subst.
  destruct l as [|y l].
  - destruct Hin as [<-|[]]. now apply le_refl.
  - change (last (x :: y :: l) NaN) with (last (y :: l) NaN).
    destruct Hin as [<-|Hin]; [|now apply IH].
    rewrite Forall_forall in Hx. apply Hx.
    destruct (exists_last (l := y :: l)) as (l' & z & E); [discriminate|].
    rewrite E, last_last. apply in_or_app. right. now left.
Qed.

(** The [nums] of the record: the coerced values, none of them NaN, in
    ascending order. *)
Theorem analyze_nums_sorted (arr : list value) (a : analysis) :
  analyze arr = Stats a ->
  Permutation (coerce arr) (nums a) /\ ascending (nums a) /\ no_NaN (nums a).
Proof.
  intros H. apply analyze_sorted in H as (l & -> & Hp & Hs & Hn & _).
  cbn [nums stats_of]. repeat split; auto. now apply sorted_ascending.
Qed.

Lemma analyze_nums_sorted_witness :
  Permutation (coerce [VNumber (Fin 2); VNull; VNumber (Fin 1)])
              (nums (stats_of [Fin 1; Fin 2]))
  /\ ascending (nums (stats_of [Fin 1; Fin 2]))
  /\ no_NaN (nums (stats_of [Fin 1; Fin 2])).
Proof.
  apply (analyze_nums_sorted [VNumber (Fin 2); VNull; VNumber (Fin 1)]
           (stats_of [Fin 1; Fin 2])).
  unfold analyze.
  cbn [coerce map coerce_element isNaN negb filter_numbers List.length Nat.eqb].
  cbn [sort fold_right insert]. unfold compareFn.
  change (Fin 2 - Fin 1 >? Fin 0) with (Rltb 0 (2 - 1)).
  rewrite (proj2 (Rltb_true 0 (2 - 1))) by lra. reflexivity.
Defined.

(** [min] and [max] are coerced values of the input, and every coerced
    value lies between them, infinities included. *)
Theorem analyze_min_max_extremes (arr : list value) (a : analysis) :
  analyze arr = Stats a ->
  In (min a) (coerce arr) /\ In (max a) (coerce arr)
  /\ (forall n, In n (coerce arr) ->
        (min a <=? n) = true /\ (n <=? max a) = true).
Proof.
  intros H. apply analyze_sorted in H as (l & -> & Hp & Hs & Hn & Hne).
  cbn [min max stats_of]. unfold min_of, max_of. rewrite item_last.
  pose proof (sorted_ascending l Hn Hs) as Ha.
  destruct l as [|x l]; [congruence|].
  change (item (x :: l) 0) with x.
  split; [|split].
  - apply (Permutation_in _ (Permutation_sym Hp)). now left.
  - apply (Permutation_in _ (Permutation_sym Hp)).
    destruct (exists_last (l := x :: l)) as (l' & z & E); [discriminate|].
    rewrite E, last_last. apply in_or_app. right. now left.
  - intros n Hin. apply (Permutation_in _ Hp) in Hin. split.
    + inversion Ha as [|? ? _ Hx]; subst. inversion Hn; subst.
      destruct Hin as [<-|Hin]; [now apply le_refl|].
      rewrite Forall_forall in Hx. now apply Hx.
    + now apply ascending_last.
Qed.

Lemma analyze_min_max_extremes_witness :
  In (min (stats_of [NInf; Fin 3])) (coerce [VNumber NInf; VString "3"])
  /\ In (max (stats_of [NInf; Fin 3])) (coerce [VNumber NInf; VString "3"])
  /\ (forall n, In n (coerce [VNumber NInf; VString "3"]) ->
        (min (stats_of [NInf; Fin 3]) <=? n) = true
        /\ (n <=? max (stats_of [NInf; Fin 3])) = true).
Proof.
  assert (E : Number "3" = Fin 3) by (unfold Number; simpl; f_equal; lra).
  apply (analyze_min_max_extremes [VNumber NInf; VString "3"]
           (stats_of [NInf; Fin 3])).
  unfold analyze, coerce. cbn [map coerce_element isNaN negb].
  change (trim_nonempty "3") with true. rewrite E. reflexivity.
Defined.

(** [count] is the number of coerced values: at least 1 and at most the
    length of the input. *)
Theorem analyze_count_bounds (arr : list value) (a : analysis) :
  analyze arr = Stats a ->
  count a = List.length (coerce arr) /\ count a = List.length (nums a)
  /\ (1 <= count a <= List.length arr)%nat.
Proof.
  intros H. apply analyze_sorted in H as (l & -> & Hp & _ & _ & Hne).
  cbn [count nums stats_of]. unfold count_of.
  rewrite <- (Permutation_length Hp).
  assert (Hlen : (List.length (coerce arr) <= List.length arr)%nat).
  { clear. induction arr as [|x arr IH]; [simpl; lia|].
    rewrite coerce_cons. destruct (coerce_element x); simpl; lia. }
  repeat split; auto.
  rewrite (Permutation_length Hp). destruct l; [congruence|simpl; lia].
Qed.

Lemma analyze_count_bounds_witness :
  count (stats_of [Fin 5]) = List.length (coerce [VNull; VNumber (Fin 5)])
  /\ count (stats_of [Fin 5]) = List.length (nums (stats_of [Fin 5]))
  /\ (1 <= count (stats_of [Fin 5]) <= List.length [VNull; VNumber (Fin 5)])%nat.
Proof.
  apply (analyze_count_bounds [VNull; VNumber (Fin 5)] (stats_of [Fin 5])).
  reflexivity.
Defined.

(** ** What [analyze] depends on *)

Lemma coerce_numbers l : no_NaN l -> coerce (map VNumber l) = l.
Proof.
  induction 1 as [|n l Hn Hl IH]; [reflexivity|].
  cbn [map]. rewrite coerce_cons. simpl. rewrite Hn. simpl. now f_equal.
Qed.

Lemma sort_sorted_id l :
  no_NaN l -> StronglySorted before l -> sort compareFn l = l.
Proof.
  intros Hn Hs. apply sorted_perm_unique; auto.
  - exact (Permutation_Forall (sort_perm _ _) Hn).
  - now apply sort_sorted.
  - apply Permutation_sym, sort_perm.
Qed.

(** [analyze] depends on its input through the coerced values only: the
    elements it drops, and whether a number came as text, change no
    field of the result and not the choice between error and record. *)
Theorem analyze_coerced_only (arr : list value) :
  analyze arr = analyze (map VNumber (coerce arr)).
Proof.
  unfold analyze. now rewrite (coerce_numbers _ (coerce_no_NaN arr)).
Qed.

(** Analysing the [nums] of a result again gives the same record. *)
Theorem analyze_nums_again (arr : list value) (a : analysis) :
  analyze arr = Stats a -> analyze (map VNumber (nums a)) = Stats a.
Proof.
  intros H. apply analyze_sorted in H as (l & -> & _ & Hs & Hn & Hne).
  cbn [nums stats_of]. rewrite analyze_nonempty.
  - now rewrite coerce_numbers, sort_sorted_id.
  - now rewrite coerce_numbers.
Qed.

Lemma analyze_nums_again_witness :
  analyze (map VNumber (nums (stats_of [Fin 5]))) = Stats (stats_of [Fin 5]).
Proof.
  apply (analyze_nums_again [VString "abc"; VNumber (Fin 5)] (stats_of [Fin 5])).
  reflexivity.
Defined.

(** Text is taken as the number it parses to, except blank text: [Number]
    makes 0 of it, and [analyze] drops it. *)
Theorem coerce_text (s : string) :
  (trim_nonempty s = true ->
     coerce_element (VString s) = coerce_element (VNumber (Number s)))
  /\ (trim_nonempty s = false ->
        Number s = Fin 0 /\ coerce_element (VString s) = None
        /\ coerce_element (VNumber (Number s)) = Some (Fin 0)).
Proof.
  split; intros H.
  - simpl. now rewrite H.
  - assert (E : Number s = Fin 0).
    { unfold Number, Text.string_numeric_literal. unfold trim_nonempty in H.
      destruct (Text.trim (list_ascii_of_string s)); [|discriminate].
      f_equal. simpl. lra. }
    repeat split; auto.
    + simpl. now rewrite H.
    + rewrite E. reflexivity.
Qed.

Lemma coerce_text_witness :
  coerce_element (VString "Infinity") = coerce_element (VNumber (Number "Infinity"))
  /\ (Number "   " = Fin 0 /\ coerce_element (VString "   ") = None
      /\ coerce_element (VNumber (Number "   ")) = Some (Fin 0)).
Proof.
  split.
  - apply (coerce_text "Infinity"). reflexivity.
  - apply (coerce_text "   "). reflexivity.
Defined.

(** ** The values around the average *)





(** ** Percentiles: when they are numbers *)

Lemma percentile_outside nums (p : number) :
  isNaN p || (p <? Fin 0) || (p >? Fin 100) = true ->
  percentile_of nums p = NaN.
Proof.
  intros H. unfold percentile_of.
  destruct ((p <? Fin 0) || (p >? Fin 100)) eqn:E; [reflexivity|].
  rewrite <- orb_assoc, E, orb_false_r in H.
  destruct p; try discriminate. reflexivity.
Qed.

(** [percentile(p)] is NaN for a rank that is NaN, below 0 or above 100,
    whatever the data; on finite data it is a finite number for every
    other rank. *)
Theorem percentile_defined (arr : list value) (a : analysis) (p : number) :
  analyze arr = Stats a ->
  (isNaN p || (p <? Fin 0) || (p >? Fin 100) = true -> percentile a p = NaN)
  /\ (all_finite (coerce arr) ->
      isNaN p || (p <? Fin 0) || (p >? Fin 100) = false ->
      isFinite (percentile a p) = true).
Proof.
  intros H. split.
  - apply analyze_sorted in H as (l & -> & _). apply percentile_outside.
  - intros Hfin Hp.
    apply analyze_finite in H as (rs & -> & Hne & _); [|assumption].
    cbn [percentile stats_of].
    destruct p as [| | |r]; try discriminate.
    cbn [isNaN orb] in Hp. unfold gt in Hp.
    change (Fin r <? Fin 0) with (Rltb r 0) in Hp.
    change (Fin 100 <? Fin r) with (Rltb 100 r) in Hp.
    apply orb_false_iff in Hp as [H0 H100].
    apply Rltb_false in H0, H100.
    now rewrite percentile_of_Fin by (auto; lra).
Qed.

Lemma percentile_defined_witness :
  (percentile (stats_of [Fin 5]) (Fin 101) = NaN)
  /\ isFinite (percentile (stats_of [Fin 5]) (Fin 30)) = true.
Proof.
  split.
  - apply (percentile_defined [VNumber (Fin 5)] (stats_of [Fin 5]) (Fin 101)).
    + reflexivity.
    + cbn [isNaN orb]. unfold gt.
      change (Fin 100 <? Fin 101) with (Rltb 100 101).
      rewrite (proj2 (Rltb_true 100 101)) by lra. apply orb_true_r.
  - apply (percentile_defined [VNumber (Fin 5)] (stats_of [Fin 5]) (Fin 30)).
    + reflexivity.
    + repeat constructor.
    + cbn [isNaN orb]. unfold gt.
      change (Fin 30 <? Fin 0) with (Rltb 30 0).
      change (Fin 100 <? Fin 30) with (Rltb 100 30).
      rewrite (proj2 (Rltb_false 30 0)), (proj2 (Rltb_false 100 30)) by lra.
      reflexivity.
Defined.

(** ** [round] at any number of digits *)

Lemma pow_10 (d : nat) : Math.pow (Fin 10) d = Fin (10 ^ d).
Proof. destruct d; reflexivity. Qed.

Lemma pow_10_pos (d : nat) : (0 < 10 ^ d)%R.
Proof. apply pow_lt. lra. Qed.

Lemma round_Fin_digits (x : R) (d : nat) :
  round (Fin x) d = Fin (IZR (Zfloor (x * 10 ^ d + / 2)) / 10 ^ d).
Proof.
  unfold round. rewrite pow_10. pose proof (pow_10_pos d).
  cbn [mul Math.round]. now rewrite div_Fin by lra.
Qed.

Lemma round_not_finite (x : number) (d : nat) :
  isFinite x = false -> round x d = x.
Proof.
  intros H. unfold round. rewrite pow_10. pose proof (pow_10_pos d).
  destruct x; try discriminate; simpl; unfold signed_inf; decide_R;
    simpl; unfold signed_inf; decide_R; reflexivity.
Qed.




Lemma round_le_Fin (a b : R) (d : nat) :
  (a <= b)%R -> (round (Fin a) d <=? round (Fin b) d) = true.
Proof.
  intros Hab. pose proof (pow_10_pos d) as HP.
  rewrite !round_Fin_digits. apply le_Fin.
  apply Rmult_le_compat_r; [apply Rlt_le, Rinv_0_lt_compat, HP|].
  apply IZR_le, Zfloor_le.
  apply Rplus_le_compat_r, Rmult_le_compat_r; lra.
Qed.

(** [round] keeps the order of numbers. *)
Theorem round_monotone (x y : number) (d : nat) :
  isNaN x = false -> isNaN y = false ->
  (x <=? y) = true -> (round x d <=? round y d) = true.
Proof.
  intros Hx Hy Hxy.
  destruct x as [| | |a], y as [| | |b]; try discriminate;
    rewrite ?(round_not_finite PInf), ?(round_not_finite NInf) by reflexivity;
    rewrite ?round_Fin_digits; try reflexivity.
  rewrite <- !round_Fin_digits. apply round_le_Fin. now apply le_Fin.
Qed.

Lemma round_monotone_witness :
  (round (Fin 1.234) 2 <=? round PInf 2) = true.
Proof.
  apply (round_monotone (Fin 1.234) PInf 2); reflexivity.
Defined.

(** ** The percentile row *)





(** * The DataAnalyzer component *)

Section ComponentProperties.
Import Component.

(** [runAnalysis] keeps the selection and the data, and ends in one of
    two states: the data has no number, no result is held and the error
    is the message of [analyze]; or [analyze] succeeded, its record is
    the result and no error is held. *)
Theorem runAnalysis_outcome (s : state) :
  selected (runAnalysis s) = selected s
  /\ data (runAnalysis s) = data s
  /\ ((coerce (data s) = [] /\ result (runAnalysis s) = None
       /\ error (runAnalysis s) = Some error_message)
      \/ (exists a, analyze (data s) = Stats a
                    /\ result (runAnalysis s) = Some (Stats a)
                    /\ error (runAnalysis s) = None)).
Proof.
  unfold runAnalysis.
  destruct (coerce (data s)) as [|n l] eqn:E.
  - rewrite (analyze_empty _ E). cbn. repeat split; auto.
  - rewrite analyze_nonempty by (rewrite E; discriminate). cbn.
    repeat split; auto. right. eexists. repeat split.
Qed.

(** Whatever the user does, from the first render on: the error and the
    result are never held together, a result that is held is a record of
    statistics and never the error object, and an error that is held is
    the message of [analyze]. *)
Theorem result_error_exclusive (events : list event) (s : state) :
  run initial events = Some s ->
  (result s = None \/ error s = None)
  /\ (forall r, result s = Some r -> exists a, r = Stats a)
  /\ (forall e, error s = Some e -> e = error_message).
Proof.
  assert (Hgen : forall s0,
    ((result s0 = None \/ error s0 = None)
     /\ (forall r, result s0 = Some r -> exists a, r = Stats a)
     /\ (forall e, error s0 = Some e -> e = error_message)) ->
    run s0 events = Some s ->
    (result s = None \/ error s = None)
    /\ (forall r, result s = Some r -> exists a, r = Stats a)
    /\ (forall e, error s = Some e -> e = error_message)).
  { induction events as [|e events IH]; intros s0 Hinv Hrun.
    - now injection Hrun as <-.
    - cbn [run] in Hrun. destruct (step s0 e) as [s1|] eqn:Estep; [|discriminate].
      apply (IH s1); [|assumption]. clear IH Hrun.
      destruct e as [|name|val]; cbn [step] in Estep.
      + injection Estep as <-. unfold runAnalysis.
        destruct (coerce (data s0)) as [|n l] eqn:E.
        * rewrite (analyze_empty _ E). cbn.
          repeat split; auto; [discriminate|]. now intros e [= <-].
        * rewrite analyze_nonempty by (rewrite E; discriminate). cbn.
          repeat split; auto; [|discriminate]. intros r [= <-]. now eexists.
      + unfold handleDatasetChange in Estep.
        destruct (lookup name exampleDatasets); [|discriminate].
        injection Estep as <-. cbn. repeat split; auto; discriminate.
      + injection Estep as <-. exact Hinv. }
  apply Hgen. cbn. repeat split; auto; discriminate.
Qed.

Lemma result_error_exclusive_witness :
  (result (runAnalysis (handleCustomInput "abc" initial)) = None
   \/ error (runAnalysis (handleCustomInput "abc" initial)) = None)
  /\ (forall r, result (runAnalysis (handleCustomInput "abc" initial)) = Some r ->
        exists a, r = Stats a)
  /\ (forall e, error (runAnalysis (handleCustomInput "abc" initial)) = Some e ->
        e = error_message).
Proof.
  apply (result_error_exclusive [CustomInput "abc"; Analyze]). reflexivity.
Defined.

(** ** The custom dataset *)

Lemma trim_start_clean l : starts_clean (Text.trim_start l).
Proof.
  induction l as [|c l IH]; simpl; [exact I|].
  destruct (Text.is_white_space c) eqn:E; [exact IH|exact E].
Qed.

Lemma trim_start_id l : starts_clean l -> Text.trim_start l = l.
Proof. destruct l as [|c l]; simpl; [reflexivity|]. now intros ->. Qed.

Lemma trim_start_suffix l : exists w, l = w ++ Text.trim_start l.
Proof.
  induction l as [|c l [w IH]]; [now exists []|]. simpl.
  destruct (Text.is_white_space c).
  - exists (c :: w). simpl. now f_equal.
  - now exists [].
Qed.

Lemma trim_clean l :
  starts_clean (Text.trim l) /\ starts_clean (rev (Text.trim l)).
Proof.
  unfold Text.trim.
  set (a := Text.trim_start l).
  pose proof (trim_start_clean l) as Ha. fold a in Ha.
  pose proof (trim_start_clean (rev a)) as Hb.
  destruct (trim_start_suffix (rev a)) as [w Hw].
  set (b := Text.trim_start (rev a)) in *.
  rewrite rev_involutive. split; [|exact Hb].
  assert (E : a = rev b ++ rev w).
  { rewrite <- (rev_involutive a), Hw, rev_app_distr. reflexivity. }
  destruct (rev b) as [|c r]; [exact I|].
  rewrite E in Ha. exact Ha.
Qed.

Lemma trim_idempotent l : Text.trim (Text.trim l) = Text.trim l.
Proof.
  destruct (trim_clean l) as [H1 H2].
  unfold Text.trim at 1.
  rewrite (trim_start_id _ H1), (trim_start_id _ H2). apply rev_involutive.
Qed.

Lemma trim_In l c : In c (Text.trim l) -> In c l.
Proof.
  unfold Text.trim. intros H. apply in_rev in H.
  destruct (trim_start_suffix (rev (Text.trim_start l))) as [w Hw].
  assert (H' : In c (rev (Text.trim_start l)))
    by (rewrite Hw; apply in_or_app; now right).
  apply in_rev in H'.
  destruct (trim_start_suffix l) as [w' Hw'].
  rewrite Hw'. apply in_or_app. now right.
Qed.

Lemma split_on_nonempty sep l : split_on sep l <> [].
Proof.
  destruct l as [|c l]; simpl; [discriminate|].
  destruct (Ascii.eqb c sep); [discriminate|].
  destruct (split_on sep l); discriminate.
Qed.

Lemma split_on_no_sep sep l :
  Forall (fun piece => ~ In sep piece) (split_on sep l).
Proof.
  induction l as [|c l IH]; simpl.
  - constructor; auto.
  - destruct (Ascii.eqb c sep) eqn:E.
    + constructor; auto.
    + destruct (split_on sep l) as [|piece rest].
      * constructor; auto. intros [->|[]]. now rewrite Ascii.eqb_refl in E.
      * inversion IH as [|? ? Hp Hr]; subst. constructor; auto.
        intros [->|Hin]; [now rewrite Ascii.eqb_refl in E|auto].
Qed.

Lemma split_on_app sep l1 l2 :
  split_on sep (l1 ++ sep :: l2) = split_on sep l1 ++ split_on sep l2.
Proof.
  induction l1 as [|c l1 IH]; simpl.
  - now rewrite Ascii.eqb_refl.
  - destruct (Ascii.eqb c sep); rewrite IH; [reflexivity|].
    pose proof (split_on_nonempty sep l1).
    destruct (split_on sep l1); [congruence|reflexivity].
Qed.

Lemma list_ascii_of_string_app (s1 s2 : string) :
  list_ascii_of_string (s1 ++ s2)
  = list_ascii_of_string s1 ++ list_ascii_of_string s2.
Proof. induction s1 as [|c s1 IH]; simpl; [reflexivity|now f_equal]. Qed.

Lemma string_of_list_ascii_nil l : string_of_list_ascii l = ""%string -> l = [].
Proof. destruct l; [reflexivity|discriminate]. Qed.

Lemma pieces_trimmed (val s : string) :
  In s (pieces val) ->
  exists lp, In lp (split_on ","%char (list_ascii_of_string val))
             /\ s = string_of_list_ascii (Text.trim lp)
             /\ Text.trim lp <> [].
Proof.
  unfold pieces. rewrite filter_In, in_map_iff.
  intros [(p & <- & Hp) Hne].
  unfold split in Hp. apply in_map_iff in Hp as (lp & <- & Hlp).
  exists lp. unfold trim in *.
  rewrite list_ascii_of_string_of_list_ascii in *.
  repeat split; auto. intros E. rewrite E in Hne. discriminate.
Qed.

Lemma pieces_nonblank (val s : string) :
  In s (pieces val) -> trim_nonempty s = true.
Proof.
  intros H. apply pieces_trimmed in H as (lp & _ & -> & Hne).
  unfold trim_nonempty.
  rewrite list_ascii_of_string_of_list_ascii, trim_idempotent.
  destruct (Text.trim lp); [congruence|reflexivity].
Qed.

(** Every piece of the custom text is text that is not empty, has no
    white space at either end and no comma, so the blank test of
    [analyze] passes on it. *)
Theorem pieces_clean (val s : string) :
  In s (pieces val) ->
  s <> ""%string /\ trim s = s
  /\ ~ In ","%char (list_ascii_of_string s)
  /\ trim_nonempty s = true.
Proof.
  intros H. pose proof (pieces_nonblank val s H) as Hnb.
  apply pieces_trimmed in H as (lp & Hlp & -> & Hne).
  repeat split; auto.
  - intros E. apply string_of_list_ascii_nil in E. congruence.
  - unfold trim. rewrite list_ascii_of_string_of_list_ascii.
    now rewrite trim_idempotent.
  - rewrite list_ascii_of_string_of_list_ascii. intros Hin.
    apply trim_In in Hin.
    pose proof (split_on_no_sep ","%char (list_ascii_of_string val)) as Hall.
    rewrite Forall_forall in Hall. exact (Hall lp Hlp Hin).
Qed.

Lemma pieces_clean_witness :
  "85.5"%string <> ""%string /\ trim "85.5" = "85.5"%string
  /\ ~ In ","%char (list_ascii_of_string "85.5")
  /\ trim_nonempty "85.5" = true.
Proof.
  apply (pieces_clean "100, ,85.5 ,, abc" "85.5").
  vm_compute. auto.
Defined.

(** The pieces of two texts joined by a comma are the pieces of the one
    followed by the pieces of the other. *)
Theorem pieces_comma (v1 v2 : string) :
  pieces (v1 ++ "," ++ v2) = pieces v1 ++ pieces v2.
Proof.
  unfold pieces, split.
  rewrite list_ascii_of_string_app. cbn [list_ascii_of_string String.append].
  rewrite split_on_app, !map_app, filter_app. reflexivity.
Qed.

(** After [handleCustomInput] the coerced sequence of the data is the
    [Number] of each piece, in the order of the text, without those that
    are NaN; the selection, the result and the error stay as they are. *)
Theorem handleCustomInput_coerce (val : string) (s : state) :
  coerce (data (handleCustomInput val s))
  = filter (fun n => negb (isNaN n)) (map Number (pieces val))
  /\ selected (handleCustomInput val s) = selected s
  /\ result (handleCustomInput val s) = result s
  /\ error (handleCustomInput val s) = error s.
Proof.
  repeat split. cbn [data handleCustomInput].
  assert (H : forall p, In p (pieces val) -> trim_nonempty p = true)
    by (intros p Hp; now apply (pieces_nonblank val p)).
  induction (pieces val) as [|p ps IH]; [reflexivity|].
  cbn [map filter]. rewrite coerce_cons. cbn [coerce_element].
  rewrite (H p) by now left. cbn [andb].
  rewrite IH by (intros q Hq; apply H; now right).
  now destruct (isNaN (Number p)).
Qed.

End ComponentProperties.

(** * The table navigated with the arrow keys *)

Section KeyboardProperties.
Import KeyboardNavigation.
Local Open Scope Z_scope.

Lemma handleKeyDown_in_bounds (key : string) (r : Z) :
  0 <= r < Z.of_nat (List.length data) ->
  0 <= row (handleKeyDown key r) < Z.of_nat (List.length data).
Proof.
  intros Hr. unfold handleKeyDown.
  destruct (String.eqb key "ArrowDown"); [cbn [row]; simpl in *; lia|].
  destruct (String.eqb key "ArrowUp"); [cbn [row]; simpl in *; lia|].
  destruct (String.eqb key "Enter" || String.eqb key " "); exact Hr.
Qed.

Lemma row_at_in_bounds (r : Z) :
  0 <= r < Z.of_nat (List.length data) -> exists d, row_at r = Some d.
Proof.
  intros Hr. unfold row_at.
  destruct (Z.ltb_spec r 0); [lia|].
  destruct (nth_error data (Z.to_nat r)) as [d|] eqn:E; [now exists d|].
  apply nth_error_None in E. lia.
Qed.

Lemma press_in_bounds (r : Z) (keys : list string) :
  0 <= r < Z.of_nat (List.length data) ->
  0 <= press r keys < Z.of_nat (List.length data).
Proof.
  unfold press. revert r.
  induction keys as [|key keys IH]; intros r Hr; [exact Hr|].
  cbn [fold_left]. apply IH. now apply handleKeyDown_in_bounds.
Qed.

(** Whatever keys are pressed, from the first render on, the selected
    row is a row of the table: no key press reads [name] from
    [undefined], and Enter and the space bar alert the name of the
    selected row. *)
Theorem selected_row_in_bounds (keys : list string) :
  let r := press 0 keys in
  0 <= r < Z.of_nat (List.length data)
  /\ (forall key, effect_of (handleKeyDown key r) <> TypeError)
  /\ (exists d, row_at r = Some d
                /\ effect_of (handleKeyDown "Enter" r)
                   = Alert ("Selected: " ++ name d)
                /\ effect_of (handleKeyDown " " r)
                   = Alert ("Selected: " ++ name d)).
Proof.
  cbv zeta.
  assert (Hr : 0 <= press 0 keys < Z.of_nat (List.length data)).
  { apply press_in_bounds. simpl. lia. }
  destruct (row_at_in_bounds _ Hr) as [d Hd].
  split; [exact Hr|]. split.
  - intros key. unfold handleKeyDown.
    destruct (String.eqb key "ArrowDown"); [discriminate|].
    destruct (String.eqb key "ArrowUp"); [discriminate|].
    destruct (String.eqb key "Enter" || String.eqb key " "); cbn [effect_of];
      [rewrite Hd|]; discriminate.
  - exists d. split; [exact Hd|].
    unfold handleKeyDown. cbn [String.eqb Ascii.eqb Bool.eqb orb effect_of].
    now rewrite Hd.
Qed.

(** The arrow keys stop at the ends of the table and undo each other
    elsewhere: ArrowDown leaves the last row and ArrowUp the first row
    selected, ArrowUp after ArrowDown returns to any row but the last,
    and ArrowDown after ArrowUp to any row but the first. *)
Theorem arrow_keys (r : Z) :
  0 <= r < Z.of_nat (List.length data) ->
  (r = Z.of_nat (List.length data) - 1 -> row (handleKeyDown "ArrowDown" r) = r)
  /\ (r = 0 -> row (handleKeyDown "ArrowUp" r) = r)
  /\ (r < Z.of_nat (List.length data) - 1 ->
      row (handleKeyDown "ArrowDown" r) = r + 1
      /\ row (handleKeyDown "ArrowUp" (row (handleKeyDown "ArrowDown" r))) = r)
  /\ (0 < r ->
      row (handleKeyDown "ArrowUp" r) = r - 1
      /\ row (handleKeyDown "ArrowDown" (row (handleKeyDown "ArrowUp" r))) = r).
Proof.
  intros Hr. unfold handleKeyDown.
  cbn [String.eqb Ascii.eqb Bool.eqb row]. simpl in *. lia.
Qed.

Lemma arrow_keys_witness :
  row (handleKeyDown "ArrowDown" 3) = 3
  /\ row (handleKeyDown "ArrowUp" (row (handleKeyDown "ArrowDown" 2))) = 2.
Proof.
  split.
  - apply (arrow_keys 3); simpl; lia.
  - apply (arrow_keys 2); simpl; lia.
Defined.

End KeyboardProperties.

(** * The virtual scroll *)

Section VirtualScrollProperties.
Import VirtualScroll.
Local Open Scope Z_scope.

Lemma handleScroll_range (scrollTop : R) :
  start (handleScroll scrollTop) = Zfloor (scrollTop / 50)
  /\ end_ (handleScroll scrollTop) = Zfloor (scrollTop / 50) + 9.
Proof.
  unfold handleScroll, itemHeight, containerHeight. cbn [start end_].
  rewrite (Zceil_eq 8 (400 / 50)) by (simpl; lra). split; lia.
Qed.

Lemma slice_nth_error {A : Type} (s e : Z) (l : list A) (i : nat) :
  0 <= s <= Z.of_nat i -> Z.of_nat i < e -> (i < List.length l)%nat ->
  nth_error (slice s e l) (i - Z.to_nat s) = nth_error l i.
Proof.
  intros Hs He Hi. unfold slice. cbv zeta.
  destruct (Z.ltb_spec s 0); [lia|]. destruct (Z.ltb_spec e 0); [lia|].
  rewrite nth_error_firstn.
  destruct (Nat.ltb_spec (i - Z.to_nat s) 
              (Z.to_nat (Z.min e (Z.of_nat (List.length l))
                         - Z.min s (Z.of_nat (List.length l))))); [|lia].
  rewrite nth_error_skipn. f_equal. lia.
Qed.

(** After a scroll to a position that is not negative, every item that
    is in the viewport, in whole or in part, is among the visible items,
    and it is drawn where it belongs: the spacer above and the visible
    items before it take as much room as the items before it. *)
Theorem visible_items_cover_viewport {A : Type} (data : list A)
    (scrollTop : R) (i : nat) :
  (0 <= scrollTop)%R -> (i < List.length data)%nat ->
  (INR i * itemHeight < scrollTop + containerHeight)%R ->
  (scrollTop < (INR i + 1) * itemHeight)%R ->
  let r := handleScroll scrollTop in
  start r <= Z.of_nat i < end_ r
  /\ nth_error (visibleItems data r) (i - Z.to_nat (start r))
     = nth_error data i
  /\ (spacerAbove r + INR (i - Z.to_nat (start r)) * itemHeight
      = INR i * itemHeight)%R.
Proof.
  intros H0 Hi Htop Hbottom. cbv zeta.
  unfold visibleItems, spacerAbove.
  destruct (handleScroll_range scrollTop) as [-> ->].
  unfold itemHeight, containerHeight in *.
  pose proof (Zfloor_bound (scrollTop / 50)) as [Hlo Hhi].
  set (f := Zfloor (scrollTop / 50)) in *.
  assert (Hf : 0 <= f) by (apply Zfloor_lub; simpl; lra).
  rewrite INR_IZR_INZ in Htop, Hbottom.
  assert (Hfi : f <= Z.of_nat i).
  { apply Z.lt_succ_r, lt_IZR. rewrite succ_IZR. lra. }
  assert (Hif : Z.of_nat i < f + 9).
  { apply lt_IZR. rewrite plus_IZR. simpl. lra. }
  split; [lia|]. split.
  - apply slice_nth_error; lia.
  - rewrite minus_INR by lia. rewrite !INR_IZR_INZ, Z2Nat.id by lia. lra.
Qed.

Lemma visible_items_cover_viewport_witness :
  start (handleScroll 120) <= Z.of_nat 2 < end_ (handleScroll 120)
  /\ nth_error (visibleItems [10; 11; 12; 13] (handleScroll 120))
       (2 - Z.to_nat (start (handleScroll 120)))
     = nth_error [10; 11; 12; 13] 2%nat
  /\ (spacerAbove (handleScroll 120)
      + INR (2 - Z.to_nat (start (handleScroll 120))) * itemHeight
      = INR 2 * itemHeight)%R.
Proof.
  apply (visible_items_cover_viewport [10; 11; 12; 13] 120 2);
    unfold itemHeight, containerHeight; simpl; try lia; lra.
Defined.

(** A scroll to any position leaves at most 9 visible items, whatever
    the size of the data. *)
Theorem visible_items_bounded {A : Type} (data : list A) (scrollTop : R) :
  (List.length (visibleItems data (handleScroll scrollTop)) <= 9)%nat.
Proof.
  unfold visibleItems, slice. cbv zeta.
  destruct (handleScroll_range scrollTop) as [-> ->].
  rewrite length_firstn.
  set (f := Zfloor (scrollTop / 50)).
  destruct (Z.ltb_spec f 0), (Z.ltb_spec (f + 9) 0); lia.
Qed.

End VirtualScrollProperties.

(** * The simple name form *)

Section SimpleNameInputProperties.
Import SimpleNameInput.

Lemma string_trim_idempotent (v : string) :
  Component.trim (Component.trim v) = Component.trim v.
Proof.
  unfold Component.trim.
  now rewrite list_ascii_of_string_of_list_ascii, trim_idempotent.
Qed.

(** Submitting shows the error or the greeting, never both and never
    neither, and which one and what it says depends on the name only
    through its trimmed form: surrounding white space changes nothing. *)
Theorem handleSubmit_trimmed (s : state) :
  (error (handleSubmit s) = ""%string <-> greeting (handleSubmit s) <> ""%string)
  /\ error (handleSubmit (setName (Component.trim (name s)) s))
     = error (handleSubmit s)
  /\ greeting (handleSubmit (setName (Component.trim (name s)) s))
     = greeting (handleSubmit s).
Proof.
  unfold handleSubmit, setName. cbn [name].
  rewrite string_trim_idempotent.
  destruct (String.length (Component.trim (name s)) <? 2)%nat; cbn.
  - repeat split; try discriminate; try (intros H; now elim H).
  - repeat split; discriminate.
Qed.

(** Whatever is typed, submitted and cleared, the error and the
    greeting are never shown together. *)
Theorem error_greeting_exclusive (events : list event) :
  let s := fold_left step events initial in
  error s = ""%string \/ greeting s = ""%string.
Proof.
  cbv zeta.
  assert (H : error initial = ""%string \/ greeting initial = ""%string)
    by now left.
  revert H. generalize initial.
  induction events as [|e events IH]; intros s Hs; [exact Hs|].
  cbn [fold_left]. apply IH.
  destruct e as [value| |]; cbn [step].
  - exact Hs.
  - unfold handleSubmit.
    destruct (String.length (Component.trim (name s)) <? 2)%nat; cbn; auto.
  - now left.
Qed.

End SimpleNameInputProperties.

(** * The upload progress simulator *)

Section UploadProgressProperties.
Import UploadProgressSimulator.
Local Open Scope R_scope.

(** In every state the component can reach, the progress is between 0
    and 100, the interval runs exactly while [isUploading] is set, and
    an upload in progress is below 100. *)
Theorem progress_invariant (s : state) :
  reachable s ->
  0 <= progress s <= 100
  /\ ticking s = isUploading s
  /\ (isUploading s = true -> progress s < 100).
Proof.
  induction 1 as [|s e Hs (Hp & Ht & Hu) He].
  - cbn. repeat split; try lra; try discriminate.
  - destruct e as [| | |random]; cbn [step enabled] in *.
    + cbn. repeat split; lra.
    + destruct He as [Hi Hlt]. unfold addProgress. cbn.
      rewrite Ht, Hi. unfold Rmin.
      destruct (Rle_dec (progress s + 25) 100);
        destruct (Rltb (progress s + 25) 100); cbn;
        repeat split; try lra; try discriminate.
    + cbn. repeat split; try lra; try discriminate.
    + destruct He as [Hk Hr]. unfold tick. cbv zeta.
      destruct (Rltb (progress s + random * 15 + 5) 100) eqn:E; cbn.
      * apply Rltb_true in E. repeat split; try lra; try exact Ht.
      * repeat split; try lra; try discriminate.
Qed.

Lemma progress_invariant_witness :
  0 <= progress (step (step initial Start) (Tick (1 / 2))) <= 100
  /\ ticking (step (step initial Start) (Tick (1 / 2)))
     = isUploading (step (step initial Start) (Tick (1 / 2)))
  /\ (isUploading (step (step initial Start) (Tick (1 / 2))) = true ->
      progress (step (step initial Start) (Tick (1 / 2))) < 100).
Proof.
  apply progress_invariant.
  apply reachable_step.
  - apply reachable_step.
    + apply reachable_initial.
    + cbn. split; [reflexivity|lra].
  - cbn. split; [reflexivity|lra].
Defined.






(** For a progress between 0 and 100, as it always is, the status line
    shows exactly one text, and so does the line of messages below the
    buttons. *)
Theorem one_message (s : state) :
  0 <= progress s <= 100 ->
  List.length (statusLine s) = 1%nat
  /\ List.length (progressMessages s) = 1%nat.
Proof.
  intros Hp. unfold statusLine, progressMessages.
  destruct (isUploading s); cbn [negb andb];
    destruct (Req_dec_T (progress s) 0) as [E0|E0];
    destruct (Req_dec_T (progress s) 100) as [E1|E1];
    destruct (Rlt_dec 25 (progress s));
    destruct (Rlt_dec 50 (progress s));
    decide_R; cbn; (split; reflexivity) || lra.
Qed.

Lemma one_message_witness :
  List.length (statusLine (addProgress initial)) = 1%nat
  /\ List.length (progressMessages (addProgress initial)) = 1%nat.
Proof.
  apply one_message. unfold addProgress, initial. cbn [progress].
  unfold Rmin. destruct (Rle_dec (0 + 25) 100); lra.
Defined.

End UploadProgressProperties.

(** * The validation of the name form *)

Section NameInputProperties.
Import RegExp NameInput.

Lemma nullable_accepts r : nullable r = true <-> accepts r [].
Proof.
  split.
  - induction r as [| |f|r1 IH1 r2 IH2|r1 IH1 r2 IH2|r IH]; simpl;
      try discriminate; intros H.
    + constructor.
    + apply orb_true_iff in H as [H|H];
        [apply accepts_alt_l|apply accepts_alt_r]; auto.
    + apply andb_true_iff in H as [H1 H2].
      change (@nil ascii) with (@nil ascii ++ []). constructor; auto.
    + constructor.
  - intros H. remember (@nil ascii) as l eqn:E.
    induction H as [|f c Hc|r1 r2 l H IH|r1 r2 l H IH
                   |r1 r2 l1 l2 H1 IH1 H2 IH2|r|r l1 l2 H1 IH1 H2 IH2];
      simpl; auto; try discriminate.
    + now rewrite IH.
    + rewrite IH by assumption. apply orb_true_r.
    + apply app_eq_nil in E as [-> ->].
      now rewrite IH1, IH2.
Qed.

Lemma derive_accepts c r l : accepts (derive c r) l <-> accepts r (c :: l).
Proof.
  split.
  - revert l.
    induction r as [| |f|r1 IH1 r2 IH2|r1 IH1 r2 IH2|r IH]; simpl; intros l H.
    + inversion H.
    + inversion H.
    + destruct (f c) eqn:E; inversion H; subst. now constructor.
    + inversion H; subst; [apply accepts_alt_l|apply accepts_alt_r]; auto.
    + assert (Hseq : forall l', accepts (Seq (derive c r1) r2) l' ->
                                accepts (Seq r1 r2) (c :: l')).
      { intros l' H'. inversion H'; subst.
        change (c :: l1 ++ l2) with ((c :: l1) ++ l2). constructor; auto. }
      destruct (nullable r1) eqn:E; [|now apply Hseq].
      inversion H; subst; [now apply Hseq|].
      change (c :: l) with ([] ++ c :: l). constructor; auto.
      now apply nullable_accepts.
    + inversion H; subst.
      change (c :: l1 ++ l2) with ((c :: l1) ++ l2). constructor; auto.
  - intros H. remember (c :: l) as l' eqn:E. revert l E.
    induction H as [|f c' Hc|r1 r2 l' H IH|r1 r2 l' H IH
                   |r1 r2 l1 l2 H1 IH1 H2 IH2|r|r l1 l2 H1 IH1 H2 IH2];
      intros l E; simpl; try discriminate.
    + injection E as -> <-. rewrite Hc. constructor.
    + apply accepts_alt_l; auto.
    + apply accepts_alt_r; auto.
    + destruct l1 as [|c1 l1]; simpl in E.
      * subst l2. apply nullable_accepts in H1. rewrite H1.
        apply accepts_alt_r; auto.
      * injection E as -> <-.
        destruct (nullable r1); [apply accepts_alt_l|]; constructor; auto.
    + destruct l1 as [|c1 l1]; simpl in E.
      * subst l2. now apply IH2.
      * injection E as -> <-. constructor; auto.
Qed.

Lemma matches_accepts r l : matches r l = true <-> accepts r l.
Proof.
  revert r. induction l as [|c l IH]; intros r; simpl.
  - apply nullable_accepts.
  - rewrite IH. apply derive_accepts.
Qed.

Lemma accepts_star_class f l :
  accepts (Star (Class f)) l <-> Forall (fun c => f c = true) l.
Proof.
  split.
  - intros H. remember (Star (Class f)) as r eqn:E.
    induction H as [| | | | | |r l1 l2 H1 IH1 H2 IH2]; try discriminate.
    + constructor.
    + injection E as ->. inversion H1; subst. constructor; auto.
  - induction 1 as [|c l Hc Hl IH]; [constructor|].
    change (c :: l) with ([c] ++ l). constructor; auto. now constructor.
Qed.

Lemma accepts_plus_class f l :
  accepts (Plus (Class f)) l <-> l <> [] /\ Forall (fun c => f c = true) l.
Proof.
  unfold Plus. split.
  - intros H. inversion H as [| | | |? ? l1 l2 H1 H2| |]; subst.
    inversion H1; subst. apply accepts_star_class in H2.
    split; [discriminate|]. constructor; auto.
  - intros [Hne Hall]. destruct l as [|c l]; [congruence|].
    inversion Hall; subst.
    change (c :: l) with ([c] ++ l). constructor; [now constructor|].
    now apply accepts_star_class.
Qed.

Lemma accepts_char (c : ascii) l : accepts (Class (Ascii.eqb c)) l <-> l = [c].
Proof.
  split.
  - intros H. inversion H; subst. f_equal. symmetry. now apply Ascii.eqb_eq.
  - intros ->. constructor. apply Ascii.eqb_refl.
Qed.

Lemma accepts_emailRegex l :
  accepts emailRegex l <->
  exists a b c,
    l = a ++ "@"%char :: b ++ "."%char :: c
    /\ a <> [] /\ b <> [] /\ c <> []
    /\ Forall (fun x => email_char x = true) a
    /\ Forall (fun x => email_char x = true) b
    /\ Forall (fun x => email_char x = true) c.
Proof.
  unfold emailRegex. split.
  - intros H.
    inversion H as [| | | |? ? a l1 Ha H1| |]; subst.
    inversion H1 as [| | | |? ? at_ l2 Hat H2| |]; subst.
    inversion H2 as [| | | |? ? b l3 Hb H3| |]; subst.
    inversion H3 as [| | | |? ? dot c Hdot Hc| |]; subst.
    apply accepts_char in Hat, Hdot. subst.
    apply accepts_plus_class in Ha as [? ?], Hb as [? ?], Hc as [? ?].
    exists a, b, c. repeat split; auto.
  - intros (a & b & c & -> & Ha & Hb & Hc & Fa & Fb & Fc).
    constructor; [now apply accepts_plus_class|].
    change ("@"%char :: b ++ "."%char :: c)
      with (["@"%char] ++ b ++ ["."%char] ++ c).
    constructor; [now apply accepts_char|].
    constructor; [now apply accepts_plus_class|].
    constructor; [now apply accepts_char|now apply accepts_plus_class].
Qed.

Lemma length_list_ascii (s : string) :
  List.length (list_ascii_of_string s) = String.length s.
Proof. induction s; simpl; auto. Qed.

(** [validateName] accepts exactly the texts of at least 2 characters
    that are all letters, white space, apostrophes or hyphens (so also
    a name of white space alone), and its error text is empty exactly
    when it accepts. *)
Theorem validateName_accepts (name : string) :
  (valid (validateName name) = true <->
     (2 <= String.length name)%nat
     /\ Forall (fun c => name_char c = true) (list_ascii_of_string name))
  /\ (error (validateName name) = ""%string <-> valid (validateName name) = true).
Proof.
  unfold validateName.
  destruct (Nat.eqb_spec (String.length name) 0) as [E0|E0]; cbn [valid error].
  { repeat split; try discriminate; intros [Hlen _]; exfalso; lia. }
  destruct (Nat.ltb_spec (String.length name) 2) as [E2|E2]; cbn [valid error].
  { repeat split; try discriminate; intros [Hlen _]; exfalso; lia. }
  destruct (test name_pattern name) eqn:T; cbn [valid error negb].
  - apply matches_accepts, accepts_plus_class in T as [_ T].
    repeat split; auto.
  - repeat split; try discriminate. intros [_ Hall].
    assert (T' : test name_pattern name = true).
    { apply matches_accepts, accepts_plus_class. split; [|assumption].
      intros E. apply (f_equal (@List.length ascii)) in E.
      rewrite length_list_ascii in E. simpl in E. lia. }
    congruence.
Qed.

Lemma validateName_accepts_witness :
  valid (validateName "O'Neil-Smith") = true.
Proof.
  apply (proj2 (proj1 (validateName_accepts "O'Neil-Smith"))). split.
  - simpl. lia.
  - repeat constructor.
Defined.

Lemma existsb_eqb_In (c : ascii) l : existsb (Ascii.eqb c) l = true <-> In c l.
Proof.
  rewrite existsb_exists. split.
  - intros (x & Hin & E). apply Ascii.eqb_eq in E. now subst.
  - intros H. exists c. split; [assumption|apply Ascii.eqb_refl].
Qed.

(** [validateEmail] accepts the empty text and, besides it, exactly the
    texts made of a local part, an at sign, a domain, a dot and an
    ending, the three parts not empty and without white space or at
    sign; its error text is empty exactly when it accepts. *)
Theorem validateEmail_accepts (email : string) :
  (valid (validateEmail email) = true <->
     email = ""%string
     \/ exists a b c,
          list_ascii_of_string email = a ++ "@"%char :: b ++ "."%char :: c
          /\ a <> [] /\ b <> [] /\ c <> []
          /\ Forall (fun x => email_char x = true) a
          /\ Forall (fun x => email_char x = true) b
          /\ Forall (fun x => email_char x = true) c)
  /\ (error (validateEmail email) = ""%string
      <-> valid (validateEmail email) = true).
Proof.
  unfold validateEmail.
  destruct (Nat.eqb_spec (String.length email) 0) as [E0|E0]; cbn [valid error].
  { repeat split; auto. intros _. left. now destruct email. }
  assert (Hne : email <> ""%string) by (intros ->; now apply E0).
  assert (Hparts : forall a b c,
            list_ascii_of_string email = a ++ "@"%char :: b ++ "."%char :: c ->
            includes "@" email = true /\ includes "." email = true).
  { intros a b c E. unfold includes. rewrite E, !existsb_eqb_In. split.
    - apply in_or_app. right. now left.
    - apply in_or_app. right. right. apply in_or_app. right. now left. }
  destruct (includes "@" email) eqn:I1; cbn [valid error negb orb].
  2: { repeat split; try discriminate.
       intros [?|(a & b & c & E & _)]; [contradiction|].
       destruct (Hparts a b c E). congruence. }
  destruct (includes "." email) eqn:I2; cbn [valid error negb orb].
  2: { repeat split; try discriminate.
       intros [?|(a & b & c & E & _)]; [contradiction|].
       destruct (Hparts a b c E). congruence. }
  destruct (test emailRegex email) eqn:T; cbn [valid error negb].
  - apply matches_accepts, accepts_emailRegex in T.
    repeat split; auto.
  - repeat split; try discriminate.
    intros [?|H]; [contradiction|].
    apply accepts_emailRegex, matches_accepts in H.
    unfold test in T. congruence.
Qed.

Lemma validateEmail_accepts_witness :
  valid (validateEmail "a.b@example.org") = true.
Proof.
  apply (proj2 (proj1 (validateEmail_accepts "a.b@example.org"))). right.
  exists (list_ascii_of_string "a.b"), (list_ascii_of_string "example"),
    (list_ascii_of_string "org").
  repeat split; try discriminate; repeat constructor.
Defined.

End NameInputProperties.
